(** * Gesture-driven ornament display: classifier, mode machine, generator, driver

    Shallow embedding of the TypeScript sources
      - [services/gestureService.ts]  (classifyGesture, calculateHandRotation)
      - [App.tsx]                     (handleGestureResult, appMode)
      - [components/TreeScene.tsx]    (ornaments, useFrame, focus useEffect)
      - [constants.ts], [types.ts]

    JavaScript numbers are modelled by the real numbers of the Standard
    Library: [Math.sqrt], [Math.sin], [Math.cos], [Math.max], [Math.min] and
    [Math.floor] are [sqrt], [sin], [cos], [Rmax], [Rmin] and [Zfloor].
    Rounding of binary64 arithmetic, NaN and the infinities are outside this
    model; the one step on which rounding decides a property, the position
    lerp of [useFrame], is given a second time on binary64 floats, in
    [Binary64].  Reading a property of [undefined] raises a [TypeError];
    this is kept, as a completion that is either normal or a throw. *)

From Stdlib Require Import Reals Lra Lia ZArith String.
From Stdlib Require PrimFloat.
From stdpp Require Import base list strings pretty.

Open Scope R_scope.

(** ** Completions: a JavaScript evaluation returns or throws *)

Inductive JSError : Type := TypeError.

Inductive Completion (A : Type) : Type :=
  | Normal (a : A)
  | Throw (e : JSError).
Arguments Normal {A} a.
Arguments Throw {A} e.

#[global] Instance Completion_ret : MRet Completion := @Normal.

#[global] Instance Completion_fmap : FMap Completion :=
  fun A B (f : A -> B) (c : Completion A) =>
    match c with
    | Normal a => Normal (f a)
    | Throw e => Throw e
    end.

#[global] Instance Completion_bind : MBind Completion :=
  fun A B (k : A -> Completion B) (c : Completion A) =>
    match c with
    | Normal a => k a
    | Throw e => Throw e
    end.

(** ** services/gestureService.ts *)

Module GestureService.

(** A MediaPipe landmark, as far as the classifier reads it. *)
Record Landmark : Type := { x : R; y : R; z : R }.

(** One hand: the array [landmarks[0]].  [lm !! k = None] is the
    JavaScript [undefined] that an out-of-range index yields. *)
Definition Hand : Type := list Landmark.

Inductive Gesture : Type := NONE | OPEN_PALM | CLOSED_FIST | PINCH.

Record GestureResult : Type := { gesture : Gesture; rotation : R }.

(** [p.f] for a value [p] that may be [undefined]. *)
Definition prop (f : Landmark -> R) (p : option Landmark) : Completion R :=
  match p with
  | Some l => Normal (f l)
  | None => Throw TypeError
  end.

(** [calculateHandRotation]; [None] is a null or undefined argument. *)
Definition calculateHandRotation (landmarks : option (list Hand))
  : Completion R :=
  match landmarks with
  | None => Normal 0
  | Some [] => Normal 0
  | Some (lm :: _) =>
      let p1 := lm !! 17%nat in
      let p2 := lm !! 2%nat in
      p1y ← prop y p1;
      p2y ← prop y p2;
      let dy := p1y - p2y in
      Normal (Rmax (-1) (Rmin 1 (dy * 5)))
  end.

(** The local [dist] of [classifyGesture]. *)
Definition dist (p1 p2 : option Landmark) : Completion R :=
  x1 ← prop x p1; x2 ← prop x p2;
  y1 ← prop y p1; y2 ← prop y p2;
  z1 ← prop z p1; z2 ← prop z p2;
  Normal (sqrt ((x1 - x2) ^ 2 + (y1 - y2) ^ 2 + (z1 - z2) ^ 2)).

(** [a[i]] for an array whose cells may themselves hold [undefined]. *)
Definition cell (a : list (option Landmark)) (i : nat) : option Landmark :=
  match a !! i with
  | Some v => v
  | None => None
  end.

(** The [for (let i = 0; i < 4; i++)] loop, run over the indices left. *)
Fixpoint foldLoop (idx : list nat) (tips mcps : list (option Landmark))
    (wrist : option Landmark) (foldedCount : nat) : Completion nat :=
  match idx with
  | [] => Normal foldedCount
  | i :: idx' =>
      dt ← dist (cell tips i) wrist;
      dm ← dist (cell mcps i) wrist;
      foldLoop idx' tips mcps wrist
        (if Rlt_dec dt dm then S foldedCount else foldedCount)
  end.

Definition classifyGesture (landmarks : option (list Hand))
  : Completion GestureResult :=
  rot ← calculateHandRotation landmarks;
  match landmarks with
  | None => Normal {| gesture := NONE; rotation := 0 |}
  | Some [] => Normal {| gesture := NONE; rotation := 0 |}
  | Some (lm :: _) =>
      let thumbTip := lm !! 4%nat in
      let indexTip := lm !! 8%nat in
      pinchDistance ← dist thumbTip indexTip;
      if Rlt_dec pinchDistance 0.05 then
        Normal {| gesture := PINCH; rotation := rot |}
      else
        let wrist := lm !! 0%nat in
        let tips := [lm !! 8%nat; lm !! 12%nat; lm !! 16%nat; lm !! 20%nat] in
        let mcps := [lm !! 5%nat; lm !! 9%nat; lm !! 13%nat; lm !! 17%nat] in
        foldedCount ← foldLoop (seq 0 4) tips mcps wrist 0%nat;
        if (3 <=? foldedCount)%nat then
          Normal {| gesture := CLOSED_FIST; rotation := rot |}
        else
          Normal {| gesture := OPEN_PALM; rotation := rot |}
  end.

(** *** Vocabulary of the specification, for full hands *)

Definition origin : Landmark := {| x := 0; y := 0; z := 0 |}.

(** Landmark [k] of a hand that has one. *)
Definition landmark (lm : Hand) (k : nat) : Landmark :=
  match lm !! k with
  | Some p => p
  | None => origin
  end.

Definition euclid (p q : Landmark) : R :=
  sqrt ((x p - x q) ^ 2 + (y p - y q) ^ 2 + (z p - z q) ^ 2).

(** A finger is folded when its tip is nearer to the wrist than its base
    knuckle is; [foldedBit] is 1 for a folded finger and 0 otherwise. *)
Definition foldedBit (lm : Hand) (tip mcp : nat) : nat :=
  if Rlt_dec (euclid (landmark lm tip) (landmark lm 0))
             (euclid (landmark lm mcp) (landmark lm 0))
  then 1 else 0.

(** Number of folded fingers among index, middle, ring and pinky. *)
Definition foldedFingers (lm : Hand) : nat :=
  (foldedBit lm 8 5 + foldedBit lm 12 9 + foldedBit lm 16 13
   + foldedBit lm 20 17)%nat.

(** Tilt of a full hand: pinky base against thumb base, gain 5, clamped. *)
Definition tilt (lm : Hand) : R :=
  Rmax (-1) (Rmin 1 ((y (landmark lm 17) - y (landmark lm 2)) * 5)).

(** *** Synthetic hands *)

(** A hand that is pinched and folded at once: every landmark sits on the
    wrist except the four base knuckles, which are one unit away. *)
Definition knuckle : Landmark := {| x := 1; y := 0; z := 0 |}.

Definition pinchedFist : Hand :=
  [origin; origin; origin; origin; origin; knuckle; origin; origin; origin;
   knuckle; origin; origin; origin; knuckle; origin; origin; origin;
   knuckle; origin; origin; origin].

End GestureService.

(** ** types.ts and constants.ts *)

Module Types.

Inductive AppMode : Type := TREE | SCATTER | FOCUS.

Inductive OrnamentType : Type := GEM | PEARL | PHOTO.

#[global] Instance AppMode_eq_dec : EqDecision AppMode.
Proof. solve_decision. Defined.

#[global] Instance OrnamentType_eq_dec : EqDecision OrnamentType.
Proof. solve_decision. Defined.

Record GestureState : Type := {
  isHandDetected : bool;
  gesture : GestureService.Gesture;
  handRotation : R
}.

End Types.

Module Constants.

Module COLORS.
Definition GOLD_PURE : string := "#FFD700".
Definition GOLD_CHAMPAGNE : string := "#F7E7CE".
Definition MATTE_BLACK : string := "#1A1A1A".
Definition RICH_RED : string := "#C70039".
Definition DEEP_GREEN : string := "#003300".
End COLORS.

Definition TREE_HEIGHT : R := 15.
Definition TREE_RADIUS_BASE : R := 6.5.
Definition ORNAMENT_COUNT : nat := 350.

End Constants.

(** ** App.tsx: the mode state machine *)

Module App.
Import Types.

Record AppState : Type := {
  gestureState : GestureState;
  appMode : AppMode;
  userImages : list string
}.

(** The initial [useState] values. *)
Definition initialState : AppState := {|
  gestureState := {| isHandDetected := false;
                     gesture := GestureService.NONE;
                     handRotation := 0 |};
  appMode := TREE;
  userImages := []
|}.

(** The if-chain under "State Machine with Transition Logic": the mode
    after the [setAppMode] call it makes, if any. *)
Definition transition (appMode : AppMode) (gesture : GestureService.Gesture)
  : AppMode :=
  match gesture with
  | GestureService.CLOSED_FIST => TREE
  | GestureService.OPEN_PALM => SCATTER
  | GestureService.PINCH => FOCUS
  | GestureService.NONE => appMode
  end.

(** [handleGestureResult], on the [worldLandmarks] of a detection result. *)
Definition handleGestureResult (landmarks : option (list GestureService.Hand))
    (st : AppState) : Completion AppState :=
  match landmarks with
  | Some (_ :: _) =>
      r ← GestureService.classifyGesture landmarks;
      Normal {|
        gestureState := {| isHandDetected := true;
                           gesture := GestureService.gesture r;
                           handRotation := GestureService.rotation r |};
        appMode := transition (appMode st) (GestureService.gesture r);
        userImages := userImages st
      |}
  | _ =>
      Normal {|
        gestureState := {| isHandDetected := false;
                           gesture := GestureService.NONE;
                           handRotation := handRotation (gestureState st) |};
        appMode := appMode st;
        userImages := userImages st
      |}
  end.

(** The mode after a sequence of gesture labels, oldest first. *)
Definition feed (appMode : AppMode) (labels : list GestureService.Gesture)
  : AppMode :=
  foldl transition appMode labels.

(** The display mode a gesture label stands for. *)
Definition modeOf (gesture : GestureService.Gesture) : option AppMode :=
  match gesture with
  | GestureService.CLOSED_FIST => Some TREE
  | GestureService.OPEN_PALM => Some SCATTER
  | GestureService.PINCH => Some FOCUS
  | GestureService.NONE => None
  end.

(** [handleFileUpload]: the object URLs of the chosen files are appended. *)
Definition handleFileUpload (newImages : list string) (st : AppState)
  : AppState :=
  {| gestureState := gestureState st;
     appMode := appMode st;
     userImages := userImages st ++ newImages |}.

End App.

(** ** The parts of three.js the scene code calls *)

Module Vector3.

Record t : Type := mk { x : R; y : R; z : R }.

(** [this.lerp(v, alpha)]: each coordinate moves by [(v - this) * alpha]. *)
Definition lerp (this v : t) (alpha : R) : t :=
  {| x := x this + (x v - x this) * alpha;
     y := y this + (y v - y this) * alpha;
     z := z this + (z v - z this) * alpha |}.

Definition add (this v : t) : t :=
  {| x := x this + x v; y := y this + y v; z := z this + z v |}.

Definition multiplyScalar (this : t) (s : R) : t :=
  {| x := x this * s; y := y this * s; z := z this * s |}.

Definition distanceTo (this v : t) : R :=
  sqrt ((x this - x v) ^ 2 + (y this - y v) ^ 2 + (z this - z v) ^ 2).

End Vector3.

Module Euler.
Record t : Type := mk { x : R; y : R; z : R }.
End Euler.

Module MathUtils.
Definition lerp (x y t : R) : R := (1 - t) * x + t * y.
End MathUtils.

(** ** components/TreeScene.tsx *)

Module TreeScene.
Import Types Constants.

Record OrnamentData : Type := {
  id : string;
  type : OrnamentType;
  positionTree : Vector3.t;
  positionScatter : Vector3.t;
  rotation : Euler.t;
  scale : R;
  color : string;
  textureUrl : option string
}.

(** The transform state of one child of the group. *)
Record Object3D : Type := {
  position : Vector3.t;
  scale3 : Vector3.t;
  rotation3 : Euler.t
}.

Record Camera : Type := {
  cameraPosition : Vector3.t;
  worldDirection : Vector3.t
}.

Definition goldenAngle : R := PI * (3 - sqrt 5).

Section Scene.

(** [random k] is what the [k]-th call of [Math.random()] returns. *)
Variable random : nat -> R.

(** three.js matrices, used only to centre the focused photo. *)
Variable Matrix4 : Type.
Variable invert : Matrix4 -> Matrix4.
Variable applyMatrix4 : Vector3.t -> Matrix4 -> Vector3.t.

Record Group : Type := {
  rotationY : R;
  matrixWorld : Matrix4;
  children : list Object3D
}.

(** [child.lookAt(p)], as the orientation it leaves the child with. *)
Variable lookAt : Group -> Object3D -> Vector3.t -> Euler.t.

(** *** 1. Generation *)

Definition getLuxuryColor (r : R) : string :=
  if Rgt_dec r 0.60 then COLORS.GOLD_PURE
  else if Rgt_dec r 0.45 then COLORS.GOLD_CHAMPAGNE
  else if Rgt_dec r 0.35 then COLORS.MATTE_BLACK
  else if Rgt_dec r 0.15 then COLORS.RICH_RED
  else COLORS.DEEP_GREEN.

(** Body of [userImages.forEach((url, i) => ...)]; [len] is
    [userImages.length], [k] the number of draws made so far.  It makes
    three draws. *)
Definition photoItem (len i : nat) (url : string) (k : nat)
  : OrnamentData :=
  let t := (INR i + 1) / (INR len + 1) in
  let y := (t * TREE_HEIGHT * 0.7) - (TREE_HEIGHT * 0.35) in
  let r := ((TREE_HEIGHT / 2) - y) / TREE_HEIGHT * TREE_RADIUS_BASE * 1.2 in
  let theta := INR i * goldenAngle * 8 + PI in
  let x := cos theta * r in
  let z := sin theta * r in
  {| id := "photo-" +:+ pretty i;
     type := PHOTO;
     textureUrl := Some url;
     positionTree := Vector3.mk x y z;
     positionScatter :=
       Vector3.mk ((random k - 0.5) * 35)
                  ((random (k + 1) - 0.5) * 20)
                  ((random (k + 2) - 0.5) * 10);
     rotation := Euler.mk 0 (- theta - PI / 2) 0;
     scale := 1.0;
     color := COLORS.GOLD_PURE |}.

(** Height and cone radius of decoration [i] of [count]. *)
Definition gemY (count i : nat) : R :=
  let yNorm := INR i / INR count in
  (yNorm * TREE_HEIGHT) - (TREE_HEIGHT / 2).

Definition radiusAtHeight (count i : nat) : R :=
  ((TREE_HEIGHT / 2) - gemY count i) / TREE_HEIGHT * TREE_RADIUS_BASE.

(** Tree position of decoration [i] when the draw for its radius is [u]. *)
Definition gemPosition (count i : nat) (u : R) : Vector3.t :=
  let y := gemY count i in
  let theta := INR i * goldenAngle in
  let r := radiusAtHeight count i * sqrt (u * 0.3 + 0.7) in
  let x := cos theta * r in
  let z := sin theta * r in
  Vector3.mk x y z.

(** Body of the [for] loop over the decorations.  It makes ten draws, in
    the order the source evaluates them. *)
Definition gemItem (count i : nat) (k : nat) : OrnamentData :=
  let type := if Rgt_dec (random (k + 1)) 0.4 then GEM else PEARL in
  let color := getLuxuryColor (random (k + 2)) in
  {| id := "ornament-" +:+ pretty i;
     type := type;
     positionTree := gemPosition count i (random k);
     positionScatter :=
       Vector3.mk ((random (k + 3) - 0.5) * 50)
                  ((random (k + 4) - 0.5) * 35)
                  ((random (k + 5) - 0.5) * 25);
     rotation :=
       Euler.mk (random (k + 6) * PI) (random (k + 7) * PI)
                (random (k + 8) * PI);
     scale := random (k + 9) * 0.3 + 0.1;
     color := color;
     textureUrl := None |}.

(** [userImages.forEach]: [urls] are the images still to visit, [i] the
    index of the first of them. *)
Fixpoint photoLoop (len : nat) (urls : list string) (i : nat)
    (items : list OrnamentData) (k : nat) : list OrnamentData * nat :=
  match urls with
  | [] => (items, k)
  | url :: urls' =>
      photoLoop len urls' (S i) (items ++ [photoItem len i url k]) (k + 3)
  end.

(** [for (let i = 0; i < count; i++)], with [todo] iterations left. *)
Fixpoint gemLoop (count todo i : nat) (items : list OrnamentData)
    (k : nat) : list OrnamentData * nat :=
  match todo with
  | O => (items, k)
  | S todo' =>
      gemLoop count todo' (S i) (items ++ [gemItem count i k]) (k + 10)
  end.

(** The [useMemo] callback, for a decoration count [count]. *)
Definition generate (count : nat) (userImages : list string) (k : nat)
  : list OrnamentData * nat :=
  let items := [] in
  let '(items, k) := photoLoop (length userImages) userImages 0 items k in
  gemLoop count count 0 items k.

Definition ornamentsOf (userImages : list string) (k : nat)
  : list OrnamentData * nat :=
  generate ORNAMENT_COUNT userImages k.

(** The two halves of the generated list in closed form: the photo
    slots for all images, and the decorations for all indices. *)
Definition photoSlots (userImages : list string) (k : nat)
  : list OrnamentData :=
  imap (fun j url =>
          photoItem (length userImages) j url (k + 3 * j))
       userImages.

Definition decorations (count : nat) (k : nat) : list OrnamentData :=
  (fun j => gemItem count j (k + 10 * j)) <$> seq 0 count.

(** *** 2. Animation loop *)

(** [targetPos = data.positionScatter; targetPos.y += ...]: [targetPos]
    is the stored vector itself, so the assignment writes into the
    ornament record. *)
Definition float (t : R) (data : OrnamentData) : OrnamentData :=
  let p := positionScatter data in
  {| id := id data;
     type := type data;
     positionTree := positionTree data;
     positionScatter :=
       Vector3.mk (Vector3.x p)
                  (Vector3.y p + sin (t * 0.5 + Vector3.x p) * 0.05)
                  (Vector3.z p);
     rotation := rotation data;
     scale := scale data;
     color := color data;
     textureUrl := textureUrl data |}.

(** The ornament record as a frame in [mode] leaves it. *)
Definition stored (mode : AppMode) (t : R) (data : OrnamentData)
  : OrnamentData :=
  if decide (mode = SCATTER) then float t data else data.

(** The test [data.type === OrnamentType.PHOTO && i === focusedIndex];
    [focusedIndex = None] is an [undefined] state value. *)
Definition isFocusedPhoto (data : OrnamentData) (i : nat)
    (focusedIndex : option Z) : bool :=
  bool_decide (type data = PHOTO)
  && bool_decide (focusedIndex = Some (Z.of_nat i)).

(** The point five units in front of the camera, in the group's frame. *)
Definition localTarget (camera : Camera) (group : Group) : Vector3.t :=
  let camDir := worldDirection camera in
  let camPos := cameraPosition camera in
  let centerPos := Vector3.add camPos (Vector3.multiplyScalar camDir 5) in
  let invWorld := invert (matrixWorld group) in
  applyMatrix4 centerPos invWorld.

(** What the "State Logic" block leaves behind for one child. *)
Record Aim : Type := {
  targetPos : Vector3.t;
  targetScale : Vector3.t;
  aimedChild : Object3D;
  aimedData : OrnamentData
}.

Definition aim (mode : AppMode) (focusedIndex : option Z)
    (camera : Camera) (group : Group) (t : R) (i : nat)
    (child : Object3D) (data : OrnamentData) : Aim :=
  let targetPos := positionTree data in
  let targetScale := Vector3.mk (scale data) (scale data) (scale data) in
  match mode with
  | SCATTER =>
      let data := float t data in
      {| targetPos := positionScatter data; targetScale := targetScale;
         aimedChild := child; aimedData := data |}
  | FOCUS =>
      if isFocusedPhoto data i focusedIndex then
        {| targetPos := localTarget camera group;
           targetScale := Vector3.mk 4 4 4;
           aimedChild :=
             {| position := position child; scale3 := scale3 child;
                rotation3 := lookAt group child (cameraPosition camera) |};
           aimedData := data |}
      else
        {| targetPos := positionScatter data; targetScale := targetScale;
           aimedChild := child; aimedData := data |}
  | TREE =>
      {| targetPos := targetPos; targetScale := targetScale;
         aimedChild := child; aimedData := data |}
  end.

Definition lerpFactor (mode : AppMode) : R :=
  if decide (mode = FOCUS) then 4 else 2.

(** The callback of [children.forEach] for a child that has ornament
    data: the child and the data as the callback leaves them. *)
Definition animate (mode : AppMode) (focusedIndex : option Z)
    (camera : Camera) (group : Group) (t delta : R) (i : nat)
    (child : Object3D) (data : OrnamentData) : Object3D * OrnamentData :=
  let a := aim mode focusedIndex camera group t i child data in
  let child := aimedChild a in
  let child :=
    {| position :=
         Vector3.lerp (position child) (targetPos a)
                      (delta * lerpFactor mode);
       scale3 :=
         Vector3.lerp (scale3 child) (targetScale a)
                      (delta * lerpFactor mode);
       rotation3 := rotation3 child |} in
  let child :=
    if decide (type data <> PHOTO) then
      {| position := position child; scale3 := scale3 child;
         rotation3 :=
           Euler.mk (Euler.x (rotation3 child) + delta * 0.2)
                    (Euler.y (rotation3 child) + delta * 0.3)
                    (Euler.z (rotation3 child)) |}
    else child in
  (child, aimedData a).

(** [children.forEach((child, i) => ...)] over the children from index
    [i] on; [ornaments] is the memoised array, shared with the render. *)
Fixpoint forEachChild (mode : AppMode) (focusedIndex : option Z)
    (camera : Camera) (group : Group) (t delta : R) (i : nat)
    (todo : list Object3D) (ornaments : list OrnamentData)
  : list Object3D * list OrnamentData :=
  match todo with
  | [] => ([], ornaments)
  | child :: todo' =>
      match ornaments !! i with
      | None =>
          let '(done, ornaments) :=
            forEachChild mode focusedIndex camera group t delta (S i)
                         todo' ornaments in
          (child :: done, ornaments)
      | Some data =>
          let '(child, data) :=
            animate mode focusedIndex camera group t delta i child data in
          let '(done, ornaments) :=
            forEachChild mode focusedIndex camera group t delta (S i)
                         todo' (<[i := data]> ornaments) in
          (child :: done, ornaments)
      end
  end.

(** What one component instance holds between renders. *)
Record Scene : Type := {
  groupRef : option Group;
  smoothRotation : R;
  focusedIndex : option Z;
  ornaments : list OrnamentData;
  mode : AppMode;
  userImages : list string;
  draws : nat
}.

(** The [useFrame] callback at clock time [t] with frame time [delta]. *)
Definition useFrame (handRotation : R) (camera : Camera) (t delta : R)
    (s : Scene) : Scene :=
  match groupRef s with
  | None => s
  | Some group =>
      let smooth := MathUtils.lerp (smoothRotation s) handRotation 0.1 in
      let group :=
        if decide (mode s <> FOCUS) then
          let rotationSpeed := 0.2 + (smooth * 1.5) in
          {| rotationY := rotationY group + rotationSpeed * delta;
             matrixWorld := matrixWorld group;
             children := children group |}
        else group in
      let '(children, ornaments) :=
        forEachChild (mode s) (focusedIndex s) camera group t delta 0
                     (children group) (ornaments s) in
      {| groupRef :=
           Some {| rotationY := rotationY group;
                   matrixWorld := matrixWorld group;
                   children := children |};
         smoothRotation := smooth;
         focusedIndex := focusedIndex s;
         ornaments := ornaments;
         mode := mode s;
         userImages := userImages s;
         draws := draws s |}
  end.

(** *** Focus selection *)

Definition photoIndices (ornaments : list OrnamentData) : list Z :=
  filter (fun i => i <> (-1)%Z)
    (imap (fun i o => if decide (type o = PHOTO) then Z.of_nat i
                      else (-1)%Z) ornaments).

(** The [useEffect] callback: the new [focusedIndex] and draw count. *)
Definition focusEffect (mode : AppMode) (userImages : list string)
    (ornaments : list OrnamentData) (focusedIndex : option Z) (k : nat)
  : option Z * nat :=
  if bool_decide (mode = FOCUS) && bool_decide (0 < length userImages)%nat
  then
    let photoIndices := photoIndices ornaments in
    if bool_decide (0 < length photoIndices)%nat then
      let nextIndex :=
        match Zfloor (random k * INR (length photoIndices)) with
        | Zneg _ => None
        | j => photoIndices !! Z.to_nat j
        end in
      (nextIndex, S k)
    else (focusedIndex, k)
  else (focusedIndex, k).

(** First render of the component. *)
Definition mount (mode : AppMode) (userImages : list string) (k : nat)
  : Scene :=
  let '(ornaments, k) := ornamentsOf userImages k in
  let '(focusedIndex, k) :=
    focusEffect mode userImages ornaments (Some 0%Z) k in
  {| groupRef := None; smoothRotation := 0; focusedIndex := focusedIndex;
     ornaments := ornaments; mode := mode; userImages := userImages;
     draws := k |}.

(** A later render with new props.  [upload = Some files] is a render
    after [handleFileUpload], which passes a fresh array; [None] keeps
    the array.  [useMemo] recomputes for a fresh array, and the effect
    runs when [mode] or [userImages.length] differs from the last
    render's. *)
Definition render (mode' : AppMode) (upload : option (list string))
    (s : Scene) : Scene :=
  let userImages' :=
    match upload with
    | Some files => userImages s ++ files
    | None => userImages s
    end in
  let '(ornaments', k) :=
    match upload with
    | Some _ => ornamentsOf userImages' (draws s)
    | None => (ornaments s, draws s)
    end in
  let '(focusedIndex', k) :=
    if bool_decide (mode' = mode s)
       && bool_decide (length userImages' = length (userImages s))
    then (focusedIndex s, k)
    else focusEffect mode' userImages' ornaments' (focusedIndex s) k in
  {| groupRef := groupRef s; smoothRotation := smoothRotation s;
     focusedIndex := focusedIndex'; ornaments := ornaments';
     mode := mode'; userImages := userImages'; draws := k |}.

(** The props after a render, and whether the effect then selects:
    a dependency changed, the mode is FOCUS and there is an image. *)
Definition nextImages (upload : option (list string)) (s : Scene)
  : list string :=
  match upload with
  | Some files => userImages s ++ files
  | None => userImages s
  end.

Definition selects (mode' : AppMode) (upload : option (list string))
    (s : Scene) : bool :=
  negb (bool_decide (mode' = mode s)
        && bool_decide (length (nextImages upload s)
                        = length (userImages s)))
  && (bool_decide (mode' = FOCUS)
      && bool_decide (0 < length (nextImages upload s))%nat).

(** *** The renderer's side *)

(** The child the renderer creates for one ornament's element, from the
    [position], [rotation] and [scale] props; the vectors are copied. *)
Definition childOf (data : OrnamentData) : Object3D :=
  {| position := positionTree data;
     scale3 := Vector3.mk (scale data) (scale data) (scale data);
     rotation3 := rotation data |}.

Definition setGroupRef (group : Group) (s : Scene) : Scene :=
  {| groupRef := Some group; smoothRotation := smoothRotation s;
     focusedIndex := focusedIndex s; ornaments := ornaments s;
     mode := mode s; userImages := userImages s; draws := draws s |}.

(** The group as committed after a render: one child per ornament. *)
Definition attach (matrixWorld : Matrix4) (s : Scene) : Scene :=
  setGroupRef {| rotationY := 0; matrixWorld := matrixWorld;
                 children := childOf <$> ornaments s |} s.

(** The generator's shape, which every later state keeps: the ornament
    at index [i] is a photo exactly when [i] is below the photo count. *)
Definition shaped (s : Scene) : Prop :=
  length (ornaments s) = (ORNAMENT_COUNT + length (userImages s))%nat
  /\ forall i o, ornaments s !! i = Some o ->
                 (type o = PHOTO <-> (i < length (userImages s))%nat).

(** The states a component instance can be in. *)
Inductive reachable : Scene -> Prop :=
  | reachable_mount mode userImages k :
      reachable (mount mode userImages k)
  | reachable_render mode' upload s :
      reachable s -> reachable (render mode' upload s)
  | reachable_frame handRotation camera t delta s :
      reachable s -> reachable (useFrame handRotation camera t delta s)
  | reachable_group group s :
      reachable s -> reachable (setGroupRef group s).

(** One rendered frame: the props and clock the callback sees. *)
Record Tick : Type := {
  tickRotation : R;
  tickCamera : Camera;
  tickTime : R
}.

(** The scene after the frames [ticks], oldest first, each [delta]
    seconds long. *)
Definition frames (delta : R) (ticks : list Tick) (s : Scene) : Scene :=
  foldl (fun s k =>
           useFrame (tickRotation k) (tickCamera k) (tickTime k) delta s)
        s ticks.

Definition childAt (s : Scene) (i : nat) : option Object3D :=
  match groupRef s with
  | Some group => children group !! i
  | None => None
  end.

(** Distance from child [i] to [target]; 0 when there is no child. *)
Definition gap (s : Scene) (i : nat) (target : Vector3.t) : R :=
  match childAt s i with
  | Some child => Vector3.distanceTo (position child) target
  | None => 0
  end.

End Scene.

Arguments rotationY {Matrix4} _.
Arguments matrixWorld {Matrix4} _.
Arguments children {Matrix4} _.
Arguments groupRef {Matrix4} _.
Arguments smoothRotation {Matrix4} _.
Arguments focusedIndex {Matrix4} _.
Arguments ornaments {Matrix4} _.
Arguments mode {Matrix4} _.
Arguments userImages {Matrix4} _.
Arguments draws {Matrix4} _.
Arguments mount random {Matrix4} mode userImages k.
Arguments render random {Matrix4} mode' upload s.
Arguments setGroupRef {Matrix4} group s.
Arguments attach {Matrix4} matrixWorld s.
Arguments shaped {Matrix4} s.
Arguments nextImages {Matrix4} upload s.
Arguments selects {Matrix4} mode' upload s.
Arguments childAt {Matrix4} s i.
Arguments gap {Matrix4} s i target.

(** *** Stand-ins for the matrices in examples: the group is not moved *)

Definition flatInvert (m : unit) : unit := m.
Definition flatApply (v : Vector3.t) (m : unit) : Vector3.t := v.
Definition flatLookAt (g : Group unit) (child : Object3D)
    (p : Vector3.t) : Euler.t := rotation3 child.

Definition flatGroup : Group unit :=
  {| rotationY := 0; matrixWorld := tt; children := [] |}.

Definition frontCamera : Camera :=
  {| cameraPosition := Vector3.mk 0 0 25;
     worldDirection := Vector3.mk 0 0 (-1) |}.

(** *** Two draw sequences *)

Definition drawsZero : nat -> R := fun _ => 0.
Definition drawsHalf : nat -> R := fun _ => 1 / 2.

(** Without photos, ornament 0 is decoration 0. *)
Definition firstGem : OrnamentData :=
  gemItem drawsHalf ORNAMENT_COUNT 0 0.

(** *** A session without photos: mount, open palm, one frame *)

Definition sessionStart : Scene unit :=
  attach tt (mount drawsHalf TREE [] 0).

Definition sessionScatter : Scene unit :=
  render drawsHalf SCATTER None sessionStart.

Definition sessionFrame : Scene unit :=
  useFrame unit flatInvert flatApply flatLookAt 0 frontCamera 1 (1 / 60)
           sessionScatter.

(** *** A session that pinches first and uploads two photos afterwards *)

Definition pinchNoPhotos : Scene unit :=
  render drawsHalf FOCUS None (mount drawsHalf TREE [] 0).

Definition pinchFrame : Scene unit :=
  useFrame unit flatInvert flatApply flatLookAt 0 frontCamera 1 (1 / 60)
           pinchNoPhotos.

Abbreviation pinchUpload :=
  (render drawsHalf FOCUS (Some ["blob:a"; "blob:b"]) pinchFrame).

(** *** A scene in TREE mode whose first child has not moved yet *)

Definition restingChild : Object3D :=
  {| position := Vector3.mk 0 0 0;
     scale3 := Vector3.mk 1 1 1;
     rotation3 := Euler.mk 0 0 0 |}.

Definition restingScene : Scene unit :=
  setGroupRef {| rotationY := 0; matrixWorld := tt;
                 children := [restingChild] |}
              (mount drawsHalf TREE [] 0).

End TreeScene.

(** ** The position lerp on binary64

    The numbers of the program are binary64 floats.  What [useFrame] does to
    a child's position is repeated here on them, each operation rounded as
    JavaScript rounds it, to tell what of the convergence holds in the
    program's own arithmetic. *)

Module Binary64.
Import PrimFloat.
Local Open Scope float_scope.

Record Vector3 : Type := mk { x : float; y : float; z : float }.

(** [this.lerp(v, alpha)] of three.js:
    [this.x += (v.x - this.x) * alpha], and so for y and z. *)
Definition lerp (this v : Vector3) (alpha : float) : Vector3 :=
  {| x := x this + (x v - x this) * alpha;
     y := y this + (y v - y this) * alpha;
     z := z this + (z v - z this) * alpha |}.

(** [this.distanceTo(v)]: the square root of [dx*dx + dy*dy + dz*dz]. *)
Definition distanceTo (this v : Vector3) : float :=
  let dx := x this - x v in
  let dy := y this - y v in
  let dz := z this - z v in
  sqrt (dx * dx + dy * dy + dz * dz).

(** [delta * lerpFactor] with a frame of 1/60 s and the factor 2 of the
    modes other than FOCUS. *)
Definition alpha : float := 1 / 60 * 2.

(** [child.position.lerp(targetPos, delta * lerpFactor)] in one frame. *)
Definition frame (target position : Vector3) : Vector3 :=
  lerp position target alpha.

(** The position after [n] frames with the same target. *)
Definition settle (n : nat) (position target : Vector3) : Vector3 :=
  Nat.iter n (frame target) position.

(** Whether [check] holds of the position now and after each of the next
    [n] frames. *)
Fixpoint always (check : Vector3 -> bool) (n : nat)
    (position target : Vector3) : bool :=
  match n with
  | O => check position
  | S n' =>
      check position && always check n' (frame target position) target
  end.

(** The next frame brings the position strictly nearer. *)
Definition closing (target position : Vector3) : bool :=
  distanceTo (frame target position) target <? distanceTo position target.

(** The position is not at the target. *)
Definition apart (target position : Vector3) : bool :=
  0 <? distanceTo position target.

(** The double that the literal [1e-3] denotes. *)
#[warnings="-inexact-float"]
Definition threshold : float := 0.001.

(** The position is within 1e-3 of the target. *)
Definition near (target position : Vector3) : bool :=
  distanceTo position target <? threshold.

(** A child at the origin, and its target one unit along x. *)
Definition origin : Vector3 := {| x := 0; y := 0; z := 0 |}.
Definition unitX : Vector3 := {| x := 1; y := 0; z := 0 |}.

End Binary64.

(** ** Further vocabulary for the classifier and the mode machine *)

Module Hands.
Import GestureService.

(** The landmark moved by the vector [v]. *)
Definition shift (v p : Landmark) : Landmark :=
  {| x := x p + x v; y := y p + y v; z := z p + z v |}.

(** The indices [classifyGesture] and [calculateHandRotation] read. *)
Definition readLandmarks : list nat :=
  [0; 2; 4; 5; 8; 9; 12; 13; 16; 17; 20]%nat.

(** A detection result without a hand: no list, or an empty one. *)
Definition noHand (landmarks : option (list Hand)) : Prop :=
  landmarks = None \/ landmarks = Some [].

End Hands.

Module AppRuns.
Import Types App.

(** [handleGestureResult] on the results of a run of detections, oldest
    first; a throw ends the run. *)
Fixpoint handleAll (results : list (option (list GestureService.Hand)))
    (st : AppState) : Completion AppState :=
  match results with
  | [] => Normal st
  | landmarks :: results' =>
      st' ← handleGestureResult landmarks st;
      handleAll results' st'
  end.

End AppRuns.

(** ** services/gestureService.ts: the detection loop of [GestureService] *)

Module GestureLoop.

Section Loop.

(** What [handLandmarker.detectForVideo] does for the video frame shown
    at a given [currentTime], and what the [onResult] given to the
    constructor does with a result: each returns or throws.  What
    [onResult] changes in its own component is not part of the
    service. *)
Variable Result : Type.
Variable detectForVideo : R -> Completion Result.
Variable onResult : Result -> Completion unit.

Record GestureService : Type := {
  handLandmarker : bool;
  video : bool;
  lastVideoTime : R;
  requestRef : option nat
}.

(** The fields of a new instance; [false] is [null]. *)
Definition create : GestureService :=
  {| handLandmarker := false; video := false; lastVideoTime := -1;
     requestRef := None |}.

(** The page as the service sees it: the video's [currentTime], the
    handles of the frame callbacks queued (each one is [this.detect]),
    the next handle, and what [onResult] was called with, oldest
    first. *)
Record Browser : Type := {
  service : GestureService;
  currentTime : R;
  callbacks : list nat;
  nextHandle : nat;
  results : list Result
}.

Definition open : Browser :=
  {| service := create; currentTime := 0; callbacks := [];
     nextHandle := 1; results := [] |}.

Definition requestAnimationFrame (b : Browser) : nat * Browser :=
  (nextHandle b,
   {| service := service b; currentTime := currentTime b;
      callbacks := callbacks b ++ [nextHandle b];
      nextHandle := S (nextHandle b); results := results b |}).

Definition cancelAnimationFrame (handle : nat) (b : Browser) : Browser :=
  {| service := service b; currentTime := currentTime b;
     callbacks := filter (fun h => h <> handle) (callbacks b);
     nextHandle := nextHandle b; results := results b |}.

(** Whether [detect] would classify the frame on show: the test of
    its [if]. *)
Definition fresh (b : Browser) : bool :=
  handLandmarker (service b) && video (service b)
  && (if Req_dec_T (currentTime b) (lastVideoTime (service b))
      then false else true).

(** The last line of [detect]:
    [this.requestRef = requestAnimationFrame(this.detect)]. *)
Definition requestDetect (b : Browser) : Browser :=
  let '(handle, b) := requestAnimationFrame b in
  {| service :=
       {| handLandmarker := handLandmarker (service b);
          video := video (service b);
          lastVideoTime := lastVideoTime (service b);
          requestRef := Some handle |};
     currentTime := currentTime b; callbacks := callbacks b;
     nextHandle := nextHandle b; results := results b |}.

(** The arrow function [detect]: the page it leaves and how it ends.
    When [detectForVideo] or [onResult] throws, the exception leaves
    [detect] before its last line: [lastVideoTime] is already written,
    and no callback is requested. *)
Definition detect (b : Browser) : Browser * Completion unit :=
  let this := service b in
  if fresh b then
    let b :=
      {| service :=
           {| handLandmarker := handLandmarker this;
              video := video this;
              lastVideoTime := currentTime b;
              requestRef := requestRef this |};
         currentTime := currentTime b; callbacks := callbacks b;
         nextHandle := nextHandle b; results := results b |} in
    match detectForVideo (currentTime b) with
    | Throw e => (b, Throw e)
    | Normal found =>
        let b :=
          {| service := service b; currentTime := currentTime b;
             callbacks := callbacks b; nextHandle := nextHandle b;
             results := results b ++ [found] |} in
        match onResult found with
        | Throw e => (b, Throw e)
        | Normal _ => (requestDetect b, Normal tt)
        end
    end
  else (requestDetect b, Normal tt).

(** [start]: a throw of [detect] reaches the caller. *)
Definition start (b : Browser) : Browser * Completion unit :=
  detect
    {| service :=
         {| handLandmarker := handLandmarker (service b);
            video := true;
            lastVideoTime := lastVideoTime (service b);
            requestRef := requestRef (service b) |};
       currentTime := currentTime b; callbacks := callbacks b;
       nextHandle := nextHandle b; results := results b |}.

(** [stop]: the handle 0 is falsy, like [null]. *)
Definition stop (b : Browser) : Browser :=
  match requestRef (service b) with
  | Some (S h) => cancelAnimationFrame (S h) b
  | _ => b
  end.

(** The end of [initialize]: the landmarker exists. *)
Definition initialized (b : Browser) : Browser :=
  {| service :=
       {| handLandmarker := true;
          video := video (service b);
          lastVideoTime := lastVideoTime (service b);
          requestRef := requestRef (service b) |};
     currentTime := currentTime b; callbacks := callbacks b;
     nextHandle := nextHandle b; results := results b |}.

(** The video moves on to the frame shown at time [t]. *)
Definition seek (t : R) (b : Browser) : Browser :=
  {| service := service b; currentTime := t; callbacks := callbacks b;
     nextHandle := nextHandle b; results := results b |}.

(** One animation frame: the callbacks queued before it run in order;
    what they queue waits for the next frame.  The browser reports an
    exception of a callback and goes on with the next one. *)
Definition animationFrame (b : Browser) : Browser :=
  foldl (fun b _ => (detect b).1)
        {| service := service b; currentTime := currentTime b;
           callbacks := []; nextHandle := nextHandle b;
           results := results b |}
        (callbacks b).

(** Whether [detect] throws on this page. *)
Definition throws (b : Browser) : bool :=
  fresh b
  && match detectForVideo (currentTime b) with
     | Throw _ => true
     | Normal found =>
         match onResult found with
         | Throw _ => true
         | Normal _ => false
         end
     end.

(** Neither callee ever throws. *)
Definition returning : Prop :=
  forall t, exists found,
    detectForVideo t = Normal found /\ onResult found = Normal tt.

(** One loop is running: one callback is queued and [requestRef] holds
    its handle. *)
Definition looping (b : Browser) : Prop :=
  exists handle,
    callbacks b = [handle]
    /\ requestRef (service b) = Some handle
    /\ (0 < handle < nextHandle b)%nat.

Inductive Event : Type :=
  | Frame
  | Seek (t : R)
  | Initialized
  | Start
  | Stop.

(** An event on the page.  The exception of a [start] that throws goes
    to its caller; the page keeps what [detect] wrote before. *)
Definition step (b : Browser) (e : Event) : Browser :=
  match e with
  | Frame => animationFrame b
  | Seek t => seek t b
  | Initialized => initialized b
  | Start => (start b).1
  | Stop => stop b
  end.

Definition run (events : list Event) (b : Browser) : Browser :=
  foldl step b events.

(** Events that only let time pass. *)
Definition passive (e : Event) : Prop :=
  match e with
  | Frame | Seek _ => True
  | _ => False
  end.

End Loop.

Arguments fresh {Result} b.
Arguments looping {Result} b.
Arguments service {Result} b.
Arguments currentTime {Result} b.
Arguments callbacks {Result} b.
Arguments nextHandle {Result} b.
Arguments results {Result} b.
Arguments open {Result}.

End GestureLoop.

(** ** The cone of the tree *)

Module Cone.
Import Constants.

(** Radius of the cone at height [y]; the generator's expression for
    [radiusAtHeight], and with the factor 1.2 for the photos' [r]. *)
Definition coneRadius (y : R) : R :=
  ((TREE_HEIGHT / 2) - y) / TREE_HEIGHT * TREE_RADIUS_BASE.

(** Squared distance of a point from the axis of the tree. *)
Definition axisDistance2 (p : Vector3.t) : R :=
  Vector3.x p ^ 2 + Vector3.z p ^ 2.

End Cone.

(** ** The rotation step of a frame *)

Module Yaw.
Import Types TreeScene.

(** The group as the "Rotation Logic" block of [useFrame] leaves it. *)
Definition turned {Matrix4 : Type} (handRotation delta : R)
    (s : Scene Matrix4) (group : Group Matrix4) : Group Matrix4 :=
  if decide (mode s <> FOCUS) then
    {| rotationY :=
         rotationY group
         + (0.2 + MathUtils.lerp (smoothRotation s) handRotation 0.1 * 1.5)
           * delta;
       matrixWorld := matrixWorld group;
       children := children group |}
  else group.

End Yaw.

(** ** An invariant of the focus *)

Module Focus.
Import Types TreeScene.

(** The focus is set, points at a photo whenever there is one, and is 0
    when there is none. *)
Definition focusOk {Matrix4 : Type} (s : Scene Matrix4) : Prop :=
  exists j,
    focusedIndex s = Some j
    /\ (0 <= j)%Z
    /\ ((0 < length (userImages s))%nat ->
        (j < Z.of_nat (length (userImages s)))%Z)
    /\ (length (userImages s) = 0%nat -> j = 0%Z).

End Focus.

(** ** Further example data *)

Module Examples.
Import Types Constants TreeScene.

(** A frame with the hand tilted fully to the right. *)
Definition tiltedTick : Tick :=
  {| tickRotation := 1; tickCamera := frontCamera; tickTime := 0 |}.

(** A mounted scene with one photo. *)
Definition photoScene : Scene unit :=
  attach tt (mount drawsHalf TREE ["blob:a"] 0).

Definition firstPhoto : OrnamentData :=
  photoItem drawsHalf 1 0 "blob:a" 0.

(** A landmarker that has nothing to say, and a listener that takes what
    it is given. *)
Definition silent (t : R) : Completion unit := Normal tt.
Definition heard (found : unit) : Completion unit := Normal tt.

(** A landmarker that finds a hand entry without landmarks, and the
    listener of [App]: [handleGestureResult], for what it returns or
    throws. *)
Definition emptyHand (t : R)
    : Completion (option (list GestureService.Hand)) :=
  Normal (Some [[]]).
Definition handled (landmarks : option (list GestureService.Hand))
    : Completion unit :=
  _ ← App.handleGestureResult landmarks App.initialState; Normal tt.

End Examples.

(** * Theorems *)

(** ** The gesture classifier *)

Section GestureFacts.
Import GestureService.

Ltac run_classifier :=
  cbv [classifyGesture calculateHandRotation dist foldLoop prop cell
       landmark euclid foldedFingers foldedBit tilt mbind Completion_bind
       lookup list_lookup seq].

Lemma full_hand_inv (lm : Hand) :
  (21 <= length lm)%nat ->
  exists p0 p1 p2 p3 p4 p5 p6 p7 p8 p9 p10 p11 p12 p13 p14 p15 p16 p17
         p18 p19 p20 tl,
    lm = p0 :: p1 :: p2 :: p3 :: p4 :: p5 :: p6 :: p7 :: p8 :: p9 :: p10
            :: p11 :: p12 :: p13 :: p14 :: p15 :: p16 :: p17 :: p18 :: p19
            :: p20 :: tl.
Proof.
  intros H.
  do 21 (destruct lm as [|? lm]; [simpl in H; lia|]).
  repeat eexists.
Qed.

(** On a hand with all 21 landmarks the classifier returns, and its
    result is the three-way choice below. *)
Lemma classifyGesture_full (lm : Hand) (rest : list Hand) :
  (21 <= length lm)%nat ->
  classifyGesture (Some (lm :: rest)) =
  Normal {| gesture :=
              if Rlt_dec (euclid (landmark lm 4) (landmark lm 8)) 0.05
              then PINCH
              else if (3 <=? foldedFingers lm)%nat then CLOSED_FIST
                   else OPEN_PALM;
            rotation := tilt lm |}.
Proof.
  intros H.
  destruct (full_hand_inv lm H)
    as (p0&p1&p2&p3&p4&p5&p6&p7&p8&p9&p10&p11&p12&p13&p14&p15&p16&p17
        &p18&p19&p20&tl&->).
  run_classifier.
  destruct (Rlt_dec _ 0.05); [reflexivity|].
  repeat destruct (Rlt_dec _ _); reflexivity.
Qed.

(** What the classifier does with a hand that lacks landmarks. *)
Lemma classifyGesture_short (lm : Hand) (rest : list Hand) :
  (length lm < 21)%nat ->
  classifyGesture (Some (lm :: rest)) =
  if bool_decide (length lm < 18)%nat then Throw TypeError
  else if Rlt_dec (euclid (landmark lm 4) (landmark lm 8)) 0.05
       then Normal {| gesture := PINCH; rotation := tilt lm |}
       else Throw TypeError.
Proof.
  intros H.
  do 18 (destruct lm as [|? lm]; [reflexivity|]).
  do 3 (destruct lm as [|? lm];
        [run_classifier; cbn [length bool_decide];
         destruct (Rlt_dec _ 0.05); [reflexivity|];
         repeat destruct (Rlt_dec _ _); reflexivity|]).
  simpl in H; lia.
Qed.

Lemma euclid_origin : euclid origin origin = 0.
Proof.
  unfold euclid, origin; simpl.
  replace ((0 - 0) * ((0 - 0) * 1) + (0 - 0) * ((0 - 0) * 1)
           + (0 - 0) * ((0 - 0) * 1)) with 0 by ring.
  apply sqrt_0.
Qed.

Lemma euclid_knuckle : euclid knuckle origin = 1.
Proof.
  unfold euclid, knuckle, origin; simpl.
  replace ((1 - 0) * ((1 - 0) * 1) + (0 - 0) * ((0 - 0) * 1)
           + (0 - 0) * ((0 - 0) * 1)) with 1 by ring.
  apply sqrt_1.
Qed.

Lemma pinchedFist_pinched :
  euclid (landmark pinchedFist 4) (landmark pinchedFist 8) < 0.05.
Proof.
  change (euclid origin origin < 0.05). rewrite euclid_origin. lra.
Qed.

Lemma pinchedFist_folded : foldedFingers pinchedFist = 4%nat.
Proof.
  unfold foldedFingers, foldedBit.
  change (landmark pinchedFist 0) with origin.
  change (landmark pinchedFist 8) with origin.
  change (landmark pinchedFist 12) with origin.
  change (landmark pinchedFist 16) with origin.
  change (landmark pinchedFist 20) with origin.
  change (landmark pinchedFist 5) with knuckle.
  change (landmark pinchedFist 9) with knuckle.
  change (landmark pinchedFist 13) with knuckle.
  change (landmark pinchedFist 17) with knuckle.
  rewrite euclid_origin, euclid_knuckle.
  destruct (Rlt_dec 0 1); [reflexivity | lra].
Qed.

(** C6.  On a hand with all 21 landmarks the rules apply in priority
    order.  A thumb-tip to index-tip distance below 0.05 gives PINCH,
    whatever the fingers do.  Otherwise the hand is a CLOSED_FIST when at
    least three of the four non-thumb fingers have their tip nearer to the
    wrist than their base knuckle, and an OPEN_PALM when fewer have. *)
Theorem classifyGesture_priority (lm : Hand) (rest : list Hand)
    (Hfull : length lm = 21%nat) :
  let pinchDistance := euclid (landmark lm 4) (landmark lm 8) in
  (pinchDistance < 0.05 ->
     classifyGesture (Some (lm :: rest)) =
     Normal {| gesture := PINCH; rotation := tilt lm |})
  /\ (~ pinchDistance < 0.05 -> (3 <= foldedFingers lm)%nat ->
      classifyGesture (Some (lm :: rest)) =
      Normal {| gesture := CLOSED_FIST; rotation := tilt lm |})
  /\ (~ pinchDistance < 0.05 -> (foldedFingers lm < 3)%nat ->
      classifyGesture (Some (lm :: rest)) =
      Normal {| gesture := OPEN_PALM; rotation := tilt lm |}).
Proof.
  intros d.
  rewrite classifyGesture_full by lia. fold d.
  destruct (Rlt_dec d 0.05) as [Hd|Hd].
  - split; [reflexivity|]. split; intros; contradiction.
  - split; [intros; contradiction|].
    split; intros _ Hn;
      destruct (Nat.leb_spec 3 (foldedFingers lm)); (reflexivity || lia).
Qed.

(** The pinched fist has four folded fingers and is still a PINCH. *)
Lemma classifyGesture_priority_witness :
  length pinchedFist = 21%nat
  /\ (3 <= foldedFingers pinchedFist)%nat
  /\ classifyGesture (Some [pinchedFist]) =
     Normal {| gesture := PINCH; rotation := tilt pinchedFist |}.
Proof.
  split; [reflexivity|]. split; [rewrite pinchedFist_folded; lia|].
  apply (proj1 (classifyGesture_priority pinchedFist [] eq_refl)).
  exact pinchedFist_pinched.
Defined.

(** C2, as the specification words it, fails: a hand entry with no
    landmarks at all makes the classifier throw. *)
Lemma classifyGesture_empty_hand_throws :
  (length ([] : Hand) < 21)%nat
  /\ classifyGesture (Some [[]]) = Throw TypeError
  /\ classifyGesture (Some [[]])
     <> Normal {| gesture := NONE; rotation := 0 |}.
Proof.
  split; [simpl; lia|]. split; [reflexivity | discriminate].
Qed.

(** C2, amended.  Only an absent or zero-length landmark list gives the
    absent-hand result.  A hand entry with fewer than 21 landmarks never
    does: with fewer than 18 the classifier throws a TypeError, and with
    18 to 20 it returns PINCH when the thumb and index tips are closer
    than 0.05 and throws otherwise. *)
Theorem classifyGesture_short_hand (lm : Hand) (rest : list Hand)
    (Hshort : (length lm < 21)%nat) :
  classifyGesture None = Normal {| gesture := NONE; rotation := 0 |}
  /\ classifyGesture (Some []) = Normal {| gesture := NONE; rotation := 0 |}
  /\ classifyGesture (Some (lm :: rest))
     <> Normal {| gesture := NONE; rotation := 0 |}
  /\ ((length lm < 18)%nat ->
      classifyGesture (Some (lm :: rest)) = Throw TypeError)
  /\ ((18 <= length lm)%nat ->
      euclid (landmark lm 4) (landmark lm 8) < 0.05 ->
      classifyGesture (Some (lm :: rest)) =
      Normal {| gesture := PINCH; rotation := tilt lm |})
  /\ ((18 <= length lm)%nat ->
      ~ euclid (landmark lm 4) (landmark lm 8) < 0.05 ->
      classifyGesture (Some (lm :: rest)) = Throw TypeError).
Proof.
  pose proof (classifyGesture_short lm rest Hshort) as E.
  split; [reflexivity|]. split; [reflexivity|].
  rewrite E. repeat split.
  - case_bool_decide; [discriminate|].
    destruct (Rlt_dec _ _); discriminate.
  - intros H. rewrite bool_decide_eq_true_2 by exact H. reflexivity.
  - intros H Hp. rewrite bool_decide_eq_false_2 by lia.
    destruct (Rlt_dec _ _); [reflexivity | contradiction].
  - intros H Hp. rewrite bool_decide_eq_false_2 by lia.
    destruct (Rlt_dec _ _); [contradiction | reflexivity].
Qed.

Lemma classifyGesture_short_hand_witness :
  (length ([] : Hand) < 21)%nat
  /\ classifyGesture (Some [[]]) = Throw TypeError.
Proof.
  assert (Hshort : (length ([] : Hand) < 21)%nat) by (simpl; lia).
  split; [exact Hshort|].
  destruct (classifyGesture_short_hand [] [] Hshort)
    as (_ & _ & _ & Hthrow & _).
  apply Hthrow. simpl; lia.
Defined.

(** C10, as the specification words it, fails: an input can hold a hand
    entry and yield no label at all.  With a hand entry without
    landmarks, and with one of 20 landmarks whose thumb tip is a unit
    away from the index tip, the classifier throws. *)
Lemma classifyGesture_hand_without_label :
  (~ exists r, classifyGesture (Some [[]]) = Normal r)
  /\ (~ exists r,
        classifyGesture
          (Some [replicate 4 origin ++ [knuckle] ++ replicate 15 origin])
        = Normal r).
Proof.
  split; intros [r Hr]; [discriminate|].
  rewrite classifyGesture_short in Hr by (cbn; lia).
  rewrite bool_decide_eq_false_2 in Hr by (cbn; lia).
  change (landmark (replicate 4 origin ++ [knuckle] ++ replicate 15 origin)
            4) with knuckle in Hr.
  change (landmark (replicate 4 origin ++ [knuckle] ++ replicate 15 origin)
            8) with origin in Hr.
  rewrite euclid_knuckle in Hr.
  destruct (Rlt_dec 1 0.05); [lra | discriminate].
Qed.

(** C10, amended.  The label NONE is returned exactly for an absent or
    empty landmark list.  On an input whose first hand has its 21
    landmarks the classifier returns, with OPEN_PALM, CLOSED_FIST or
    PINCH.  On an input whose first hand has fewer, the label is not NONE
    either, but there need not be one: the classifier throws or returns
    PINCH. *)
Theorem classifyGesture_none_exactly (landmarks : option (list Hand)) :
  (landmarks = None \/ landmarks = Some [] ->
     classifyGesture landmarks =
     Normal {| gesture := NONE; rotation := 0 |})
  /\ (forall r, classifyGesture landmarks = Normal r ->
      gesture r = NONE -> landmarks = None \/ landmarks = Some [])
  /\ (forall lm rest, landmarks = Some (lm :: rest) ->
      (21 <= length lm)%nat ->
      exists r, classifyGesture landmarks = Normal r
                /\ (gesture r = OPEN_PALM \/ gesture r = CLOSED_FIST
                    \/ gesture r = PINCH))
  /\ (forall lm rest, landmarks = Some (lm :: rest) ->
      (length lm < 21)%nat ->
      classifyGesture landmarks = Throw TypeError
      \/ classifyGesture landmarks =
         Normal {| gesture := PINCH; rotation := tilt lm |}).
Proof.
  split; [|split; [|split]].
  - intros [-> | ->]; reflexivity.
  - intros r Hr Hnone.
    destruct landmarks as [[|lm rest]|]; [right; reflexivity | | left; reflexivity].
    exfalso.
    destruct (Nat.lt_ge_cases (length lm) 21) as [Hlen|Hlen].
    + rewrite (classifyGesture_short lm rest Hlen) in Hr.
      case_bool_decide; [discriminate|].
      destruct (Rlt_dec _ _); [|discriminate].
      injection Hr as <-. discriminate.
    + rewrite (classifyGesture_full lm rest Hlen) in Hr.
      injection Hr as <-. cbn [gesture] in Hnone.
      destruct (Rlt_dec _ _); [discriminate|].
      destruct (foldedFingers lm) as [|[|[|?]]]; discriminate.
  - intros lm rest -> Hlen.
    rewrite (classifyGesture_full lm rest Hlen).
    eexists; split; [reflexivity|]. cbn [gesture].
    destruct (Rlt_dec _ _); [auto|].
    destruct (foldedFingers lm) as [|[|[|?]]]; auto.
  - intros lm rest -> Hlen.
    rewrite (classifyGesture_short lm rest Hlen).
    case_bool_decide; [left; reflexivity|].
    destruct (Rlt_dec _ _); [right | left]; reflexivity.
Qed.

Lemma classifyGesture_none_exactly_witness :
  exists r, classifyGesture (Some [pinchedFist]) = Normal r
            /\ (gesture r = OPEN_PALM \/ gesture r = CLOSED_FIST
                \/ gesture r = PINCH).
Proof.
  apply (proj1 (proj2 (proj2 (classifyGesture_none_exactly
                                (Some [pinchedFist]))))
           pinchedFist [] eq_refl).
  simpl; lia.
Defined.

End GestureFacts.

(** ** The mode state machine *)

Section AppFacts.
Import Types App.
Import GestureService (NONE, OPEN_PALM, CLOSED_FIST, PINCH).

(** C5.  The machine starts in TREE.  CLOSED_FIST leads to TREE,
    OPEN_PALM to SCATTER and PINCH to FOCUS, from any mode; NONE keeps the
    mode.  From TREE, the labels OPEN_PALM, NONE, OPEN_PALM end in
    SCATTER, and the label of the current mode changes nothing.  The mode
    [handleGestureResult] leaves is this transition applied to the
    classifier's label for the observation. *)
Theorem mode_machine :
  appMode initialState = TREE
  /\ (forall m, transition m CLOSED_FIST = TREE
                /\ transition m OPEN_PALM = SCATTER
                /\ transition m PINCH = FOCUS
                /\ transition m NONE = m)
  /\ feed TREE [OPEN_PALM; NONE; OPEN_PALM] = SCATTER
  /\ (forall g m, modeOf g = Some m -> transition m g = m)
  /\ (forall landmarks st,
        appMode <$> handleGestureResult landmarks st =
        (fun r => transition (appMode st) (GestureService.gesture r))
          <$> GestureService.classifyGesture landmarks).
Proof.
  split; [reflexivity|]. split; [intros m; repeat split|].
  split; [reflexivity|]. split.
  - intros [] m; simpl; congruence.
  - intros [[|lm rest]|] st; [reflexivity| |reflexivity].
    unfold handleGestureResult.
    destruct (GestureService.classifyGesture (Some (lm :: rest)));
      reflexivity.
Qed.

End AppFacts.

(** ** The geometry generator *)

Section GeneratorFacts.
Import Types Constants TreeScene.

Variable random : nat -> R.

(** The photo loop appends one photo slot per image, in order, and makes
    three draws for each. *)
Lemma photoLoop_spec (len : nat) (urls : list string) :
  forall (i : nat) (items : list OrnamentData) (k : nat),
    photoLoop random len urls i items k =
    (items ++ imap (fun j url =>
                      photoItem random len (i + j) url (k + 3 * j)) urls,
     (k + 3 * length urls)%nat).
Proof.
  induction urls as [|url urls IH]; intros i items k.
  - simpl. rewrite app_nil_r. f_equal. lia.
  - cbn [photoLoop]. rewrite IH. rewrite <- app_assoc. cbn [length].
    f_equal; [|lia]. f_equal. rewrite imap_cons. cbn [app].
    f_equal.
    + f_equal; lia.
    + apply imap_ext. intros j url' _. unfold compose.
      f_equal; lia.
Qed.

(** The decoration loop appends one decoration per index, in order, and
    makes ten draws for each. *)
Lemma gemLoop_spec (count todo : nat) :
  forall (i : nat) (items : list OrnamentData) (k : nat),
    gemLoop random count todo i items k =
    (items ++ ((fun j => gemItem random count (i + j) (k + 10 * j))
                 <$> seq 0 todo),
     (k + 10 * todo)%nat).
Proof.
  induction todo as [|todo IH]; intros i items k.
  - simpl. rewrite app_nil_r. f_equal. lia.
  - cbn [gemLoop]. rewrite IH. rewrite <- app_assoc.
    f_equal; [|lia]. f_equal. cbn [seq fmap list_fmap app].
    f_equal.
    + f_equal; lia.
    + rewrite <- fmap_S_seq, <- list_fmap_compose.
      apply list_fmap_ext. intros _ j _. unfold compose.
      f_equal; lia.
Qed.

Lemma generate_spec (count : nat) (userImages : list string) (k : nat) :
  generate random count userImages k =
  (photoSlots random userImages k
     ++ decorations random count (k + 3 * length userImages),
   (k + 3 * length userImages + 10 * count)%nat).
Proof.
  unfold generate. rewrite photoLoop_spec, gemLoop_spec.
  reflexivity.
Qed.

Lemma length_photoSlots userImages k :
  length (photoSlots random userImages k) = length userImages.
Proof. unfold photoSlots. apply length_imap. Qed.

Lemma length_decorations count k : length (decorations random count k) = count.
Proof. unfold decorations. rewrite length_fmap. apply length_seq. Qed.

Lemma lookup_photoSlots userImages k i url :
  userImages !! i = Some url ->
  photoSlots random userImages k !! i =
  Some (photoItem random (length userImages) i url (k + 3 * i)).
Proof.
  intros H. unfold photoSlots. rewrite list_lookup_imap, H. reflexivity.
Qed.

Lemma lookup_decorations count k i :
  (i < count)%nat ->
  decorations random count k !! i = Some (gemItem random count i (k + 10 * i)).
Proof.
  intros H. unfold decorations.
  rewrite list_lookup_fmap, lookup_seq_lt by exact H. reflexivity.
Qed.

Lemma lookup_generate_photo count userImages k i url :
  userImages !! i = Some url ->
  (generate random count userImages k).1 !! i =
  Some (photoItem random (length userImages) i url (k + 3 * i)).
Proof.
  intros H. rewrite generate_spec. cbn [fst].
  apply lookup_app_l_Some, lookup_photoSlots, H.
Qed.

Lemma lookup_generate_gem count userImages k i :
  (i < count)%nat ->
  (generate random count userImages k).1 !! (length userImages + i)%nat =
  Some (gemItem random count i (k + 3 * length userImages + 10 * i)).
Proof.
  intros H. rewrite generate_spec. cbn [fst].
  rewrite lookup_app_r by (rewrite length_photoSlots; lia).
  rewrite length_photoSlots.
  replace (length userImages + i - length userImages)%nat with i by lia.
  apply lookup_decorations, H.
Qed.

Lemma type_gemItem count i k : type (gemItem random count i k) <> PHOTO.
Proof.
  unfold gemItem; cbn [type]. destruct (Rgt_dec _ _); discriminate.
Qed.

Lemma filter_imap_all {A B : Type} (P : B -> Prop)
    `{!forall b, Decision (P b)} (l : list A) :
  forall f : nat -> A -> B,
    (forall j a, P (f j a)) -> filter P (imap f l) = imap f l.
Proof.
  induction l as [|a l IH]; intros f Hf; [reflexivity|].
  rewrite imap_cons, filter_cons_True by apply Hf.
  f_equal. apply IH. intros j b. apply Hf.
Qed.

Lemma filter_photo_photoSlots userImages k :
  filter (fun o => type o = PHOTO) (photoSlots random userImages k)
  = photoSlots random userImages k.
Proof.
  unfold photoSlots. apply filter_imap_all. reflexivity.
Qed.

Lemma filter_photo_decorations count k :
  filter (fun o => type o = PHOTO) (decorations random count k) = [].
Proof.
  unfold decorations. induction (seq 0 count) as [|j js IH]; [reflexivity|].
  rewrite fmap_cons, filter_cons_False by apply type_gemItem. exact IH.
Qed.

(** Height of photo slot [i] of [len]. *)
Lemma photo_band (len i : nat) (url : string) (k : nat) :
  (i < len)%nat ->
  -0.35 * TREE_HEIGHT
  < Vector3.y (positionTree (photoItem random len i url k))
  < 0.35 * TREE_HEIGHT.
Proof.
  intros Hi. unfold photoItem, TREE_HEIGHT. cbn [positionTree Vector3.y].
  assert (Hi' : INR i + 1 < INR len + 1) by (apply lt_INR in Hi; lra).
  assert (H0 : 0 <= INR i) by apply pos_INR.
  assert (Ht : 0 < (INR i + 1) / (INR len + 1) < 1).
  { split.
    - apply Rdiv_lt_0_compat; lra.
    - apply (Rmult_lt_reg_r (INR len + 1)); [lra|].
      unfold Rdiv. rewrite Rmult_assoc, Rinv_l by lra. lra. }
  lra.
Qed.

Lemma lookup_generate_inv count userImages k i o :
  (generate random count userImages k).1 !! i = Some o ->
  ((i < length userImages)%nat
   /\ exists url, userImages !! i = Some url
                  /\ o = photoItem random (length userImages) i url
                                   (k + 3 * i))
  \/ ((length userImages <= i)%nat
      /\ (i - length userImages < count)%nat
      /\ o = gemItem random count (i - length userImages)
                     (k + 3 * length userImages
                      + 10 * (i - length userImages))).
Proof.
  rewrite generate_spec. cbn [fst]. intros H.
  apply lookup_app_Some in H as [H | [Hge H]].
  - left. unfold photoSlots in H.
    apply list_lookup_imap_Some in H as (url & Hurl & ->).
    split; [apply lookup_lt_Some in Hurl; exact Hurl|].
    exists url. split; [exact Hurl | reflexivity].
  - right. rewrite length_photoSlots in Hge, H.
    split; [exact Hge|].
    assert (Hlt : (i - length userImages < count)%nat).
    { apply lookup_lt_Some in H. rewrite length_decorations in H.
      exact H. }
    split; [exact Hlt|].
    rewrite lookup_decorations in H by exact Hlt. congruence.
Qed.

Lemma generate_length count userImages k :
  length (generate random count userImages k).1
  = (count + length userImages)%nat.
Proof.
  rewrite generate_spec. cbn [fst].
  rewrite length_app, length_photoSlots, length_decorations. lia.
Qed.

Lemma generate_types count userImages k i o :
  (generate random count userImages k).1 !! i = Some o ->
  (type o = PHOTO <-> (i < length userImages)%nat).
Proof.
  intros H.
  apply lookup_generate_inv in H
    as [(Hi & url & _ & ->) | (Hi & _ & ->)].
  - split; [intros _; exact Hi | reflexivity].
  - split; [intros Hp; destruct (type_gemItem _ _ _ Hp) | lia].
Qed.

Lemma generate_draws count userImages k :
  (generate random count userImages k).2
  = (k + 3 * length userImages + 10 * count)%nat.
Proof. rewrite generate_spec. reflexivity. Qed.

(** C9.  For every decoration count N and every photo list of length P
    the generator returns N + P records, exactly P of them of type PHOTO.
    The records at indices below P are the photo slots and the N after
    them are decorations.  Every photo slot's tree position has a height
    strictly between -0.35 and 0.35 times TREE_HEIGHT. *)
Theorem generate_layout (N : nat) (userImages : list string) (k : nat) :
  let items := (generate random N userImages k).1 in
  let P := length userImages in
  length items = (N + P)%nat
  /\ length (filter (fun o => type o = PHOTO) items) = P
  /\ (forall i, (i < N + P)%nat -> is_Some (items !! i))
  /\ (forall i o, items !! i = Some o -> (type o = PHOTO <-> (i < P)%nat))
  /\ (forall i o, items !! i = Some o -> type o = PHOTO ->
        -0.35 * TREE_HEIGHT < Vector3.y (positionTree o)
        < 0.35 * TREE_HEIGHT).
Proof.
  intros items P.
  assert (Hlen : length items = (N + P)%nat)
    by apply generate_length.
  assert (Htype : forall i o, items !! i = Some o ->
                              (type o = PHOTO <-> (i < P)%nat))
    by apply generate_types.
  split; [exact Hlen|]. split.
  { unfold items. rewrite generate_spec. cbn [fst].
    rewrite filter_app, filter_photo_photoSlots, filter_photo_decorations.
    rewrite app_nil_r. apply length_photoSlots. }
  split; [intros i Hi; apply lookup_lt_is_Some; lia|].
  split; [exact Htype|].
  intros i o H Hp.
  pose proof (proj1 (Htype i o H) Hp) as Hi.
  apply lookup_generate_inv in H
    as [(_ & url & _ & ->) | (Hge & _ & _)]; [|unfold P in Hi; lia].
  apply photo_band. exact Hi.
Qed.

End GeneratorFacts.


Lemma gemY_range (N i : nat) :
  (i < N)%nat ->
  - (Constants.TREE_HEIGHT / 2) <= TreeScene.gemY N i
  < Constants.TREE_HEIGHT / 2.
Proof.
  intros Hi. unfold TreeScene.gemY, Constants.TREE_HEIGHT.
  assert (HN : 0 < INR N) by (apply lt_0_INR; lia).
  assert (H0 : 0 <= INR i) by apply pos_INR.
  assert (Hlt : INR i < INR N) by (apply lt_INR; exact Hi).
  assert (Hq : 0 <= INR i / INR N < 1).
  { split.
    - apply Rmult_le_pos; [exact H0|].
      apply Rlt_le, Rinv_0_lt_compat, HN.
    - apply (Rmult_lt_reg_r (INR N)); [exact HN|].
      unfold Rdiv. rewrite Rmult_assoc, Rinv_l by lra. lra. }
  lra.
Qed.

(** The tree position of a decoration determines the draw made for its
    radius, for draws that [Math.random] can give. *)
Lemma gemPosition_inj (N i : nat) (u1 u2 : R) :
  (i < N)%nat -> 0 <= u1 -> 0 <= u2 ->
  TreeScene.gemPosition N i u1 = TreeScene.gemPosition N i u2 -> u1 = u2.
Proof.
  intros Hi H1 H2 E.
  unfold TreeScene.gemPosition in E.
  assert (HR : 0 < TreeScene.radiusAtHeight N i).
  { pose proof (gemY_range N i Hi) as Hy.
    unfold TreeScene.radiusAtHeight, Constants.TREE_HEIGHT,
      Constants.TREE_RADIUS_BASE in *. lra. }
  set (theta := INR i * TreeScene.goldenAngle) in E.
  set (r1 := TreeScene.radiusAtHeight N i * sqrt (u1 * 0.3 + 0.7)) in E.
  set (r2 := TreeScene.radiusAtHeight N i * sqrt (u2 * 0.3 + 0.7)) in E.
  assert (Ex : cos theta * r1 = cos theta * r2)
    by exact (f_equal Vector3.x E).
  assert (Ez : sin theta * r1 = sin theta * r2)
    by exact (f_equal Vector3.z E).
  assert (Er : r1 = r2).
  { pose proof (sin2_cos2 theta) as Hsc. unfold Rsqr in Hsc.
    replace r1 with ((sin theta * sin theta + cos theta * cos theta) * r1)
      by (rewrite Hsc; ring).
    replace r2 with ((sin theta * sin theta + cos theta * cos theta) * r2)
      by (rewrite Hsc; ring).
    replace ((sin theta * sin theta + cos theta * cos theta) * r1)
      with (sin theta * (sin theta * r1) + cos theta * (cos theta * r1))
      by ring.
    rewrite Ex, Ez. ring. }
  unfold r1, r2 in Er.
  apply Rmult_eq_reg_l in Er; [|lra].
  apply sqrt_inj in Er; lra.
Qed.



(** ** The position lerp in binary64 *)

Section Binary64Facts.
Import Binary64.

Lemma settle_next (n : nat) (position target : Vector3) :
  settle (S n) position target = settle n (frame target position) target.
Proof. apply Nat.iter_succ_r. Qed.

Lemma settle_add (n m : nat) (position target : Vector3) :
  settle (n + m) position target
  = settle n (settle m position target) target.
Proof. apply Nat.iter_add. Qed.

(** A position that one frame leaves in place stays there. *)
Lemma settle_stalled (position target : Vector3) :
  frame target position = position ->
  forall n, settle n position target = position.
Proof.
  intros Hfix. induction n as [|n IH]; [reflexivity|].
  rewrite settle_next, Hfix. exact IH.
Qed.

Lemma always_spec (check : Vector3 -> bool) (n : nat) :
  forall position target,
    always check n position target = true ->
    forall m, (m <= n)%nat -> check (settle m position target) = true.
Proof.
  induction n as [|n IH]; intros position target H m Hm.
  - replace m with 0%nat by lia. exact H.
  - cbn [always] in H. apply andb_prop in H as [H0 H].
    destruct m as [|m]; [exact H0|].
    rewrite settle_next. apply (IH _ _ H). lia.
Qed.

(** The run from the origin to a target one unit away: what one
    evaluation of the frames shows. *)
Lemma run_closing : always (closing unitX) 1000 origin unitX = true.
Proof. vm_compute. reflexivity. Qed.

Lemma run_apart : always (apart unitX) 1001 origin unitX = true.
Proof. vm_compute. reflexivity. Qed.

Lemma run_near :
  always (near unitX) 797 (settle 204 origin unitX) unitX = true.
Proof. vm_compute. reflexivity. Qed.

Lemma run_far : near unitX (settle 203 origin unitX) = false.
Proof. vm_compute. reflexivity. Qed.

Lemma run_stalled :
  frame unitX (settle 1001 origin unitX) = settle 1001 origin unitX.
Proof. vm_compute. reflexivity. Qed.

Lemma run_after (n : nat) :
  (1001 <= n)%nat -> settle n origin unitX = settle 1001 origin unitX.
Proof.
  intros Hn. replace n with ((n - 1001) + 1001)%nat by lia.
  rewrite settle_add. apply settle_stalled, run_stalled.
Qed.

(** The whole run: the distance goes strictly down on the first 1001
    frames, the position is the same from frame 1001 on, it is never the
    target, and it is within 1e-3 of it from frame 204 on and not
    before. *)
Lemma run_from_origin :
  let position n := settle n origin unitX in
  (forall n, (n <= 1000)%nat -> closing unitX (position n) = true)
  /\ (forall n, (1001 <= n)%nat -> position n = position 1001%nat)
  /\ (forall n, apart unitX (position n) = true)
  /\ (forall n, (204 <= n)%nat -> near unitX (position n) = true)
  /\ near unitX (position 203%nat) = false.
Proof.
  intros position.
  assert (Hapart : forall m, (m <= 1001)%nat ->
            apart unitX (position m) = true)
    by exact (always_spec _ _ _ _ run_apart).
  assert (Hnear : forall m, (204 <= m <= 1001)%nat ->
            near unitX (position m) = true).
  { intros m Hm. unfold position.
    replace m with ((m - 204) + 204)%nat by lia.
    rewrite settle_add.
    apply (always_spec _ _ _ _ run_near). lia. }
  split; [exact (always_spec _ _ _ _ run_closing)|].
  split; [exact run_after|].
  split; [|split; [|exact run_far]].
  - intros n. destruct (Nat.le_gt_cases n 1001) as [Hn|Hn].
    + apply Hapart, Hn.
    + unfold position. rewrite run_after by lia.
      apply Hapart. lia.
  - intros n Hn. destruct (Nat.le_gt_cases n 1001) as [Hle|Hgt].
    + apply Hnear. lia.
    + unfold position. rewrite run_after by lia.
      apply Hnear. lia.
Qed.


End Binary64Facts.

(** ** The animation driver *)

Section FrameFacts.
Import Types Constants TreeScene.

Variable Matrix4 : Type.
Variable invert : Matrix4 -> Matrix4.
Variable applyMatrix4 : Vector3.t -> Matrix4 -> Vector3.t.
Variable lookAt : Group Matrix4 -> Object3D -> Vector3.t -> Euler.t.

Abbreviation aim := (TreeScene.aim Matrix4 invert applyMatrix4 lookAt).
Abbreviation animate := (TreeScene.animate Matrix4 invert applyMatrix4 lookAt).
Abbreviation forEachChild := (TreeScene.forEachChild Matrix4 invert applyMatrix4 lookAt).
Abbreviation useFrame := (TreeScene.useFrame Matrix4 invert applyMatrix4 lookAt).
Abbreviation frames := (TreeScene.frames Matrix4 invert applyMatrix4 lookAt).

Lemma animate_data mode fi camera group t delta i child data :
  (animate mode fi camera group t delta i child data).2
  = stored mode t data.
Proof.
  unfold TreeScene.animate, TreeScene.aim, stored. cbn [snd].
  destruct mode; cbn [aimedData]; try reflexivity.
  destruct (isFocusedPhoto data i fi); reflexivity.
Qed.

Lemma forEachChild_ornaments mode fi camera group t delta todo :
  forall i orn j,
    (forEachChild mode fi camera group t delta i todo orn).2 !! j
    = if bool_decide (i <= j < i + length todo)%nat
      then stored mode t <$> orn !! j
      else orn !! j.
Proof.
  induction todo as [|child todo IH]; intros i orn j.
  - cbn. rewrite bool_decide_eq_false_2 by lia. reflexivity.
  - cbn [TreeScene.forEachChild length].
    destruct (orn !! i) as [data|] eqn:Hi.
    + destruct (animate mode fi camera group t delta i child data)
        as [child' data'] eqn:Ha.
      assert (Hd : data' = stored mode t data)
        by (rewrite <- animate_data
              with (fi := fi) (camera := camera) (group := group)
                   (delta := delta) (i := i) (child := child);
            rewrite Ha; reflexivity).
      specialize (IH (S i) (<[i := data']> orn) j).
      destruct (forEachChild mode fi camera group t delta (S i) todo
                  (<[i := data']> orn)) as [done orn'].
      cbn [snd] in IH |- *. rewrite IH.
      destruct (decide (i = j)) as [<-|Hne].
      * rewrite list_lookup_insert_eq
          by (apply lookup_lt_Some in Hi; exact Hi).
        rewrite Hi, Hd.
        repeat case_bool_decide; try reflexivity; lia.
      * rewrite list_lookup_insert_ne by exact Hne.
        repeat case_bool_decide; try reflexivity; lia.
    + specialize (IH (S i) orn j).
      destruct (forEachChild mode fi camera group t delta (S i) todo orn)
        as [done orn'].
      cbn [snd] in IH |- *. rewrite IH.
      destruct (decide (i = j)) as [<-|Hne].
      * rewrite Hi. repeat case_bool_decide; reflexivity.
      * repeat case_bool_decide; try reflexivity; lia.
Qed.

Lemma forEachChild_children mode fi camera group t delta todo :
  forall i orn j child,
    todo !! j = Some child ->
    (forEachChild mode fi camera group t delta i todo orn).1 !! j
    = Some match orn !! (i + j)%nat with
           | Some data =>
               (animate mode fi camera group t delta (i + j) child data).1
           | None => child
           end.
Proof.
  induction todo as [|c todo IH]; intros i orn j child Hj; [discriminate|].
  cbn [TreeScene.forEachChild].
  destruct j as [|j].
  - injection Hj as ->. rewrite Nat.add_0_r.
    destruct (orn !! i) as [data|].
    + destruct (animate mode fi camera group t delta i child data)
        as [child' data'].
      destruct (forEachChild mode fi camera group t delta (S i) todo _).
      reflexivity.
    + destruct (forEachChild mode fi camera group t delta (S i) todo _).
      reflexivity.
  - cbn in Hj.
    replace (i + S j)%nat with (S i + j)%nat by lia.
    destruct (orn !! i) as [data|].
    + destruct (animate mode fi camera group t delta i c data)
        as [child' data'].
      specialize (IH (S i) (<[i := data']> orn) j child Hj).
      destruct (forEachChild mode fi camera group t delta (S i) todo _).
      cbn [fst] in IH |- *.
      rewrite list_lookup_insert_ne in IH by lia. exact IH.
    + specialize (IH (S i) orn j child Hj).
      destruct (forEachChild mode fi camera group t delta (S i) todo _).
      cbn [fst] in IH |- *. exact IH.
Qed.

Lemma forEachChild_length mode fi camera group t delta todo :
  forall i orn,
    length (forEachChild mode fi camera group t delta i todo orn).1
    = length todo.
Proof.
  induction todo as [|c todo IH]; intros i orn; [reflexivity|].
  cbn [TreeScene.forEachChild].
  destruct (orn !! i) as [data|].
  - destruct (animate mode fi camera group t delta i c data)
      as [child' data'].
    specialize (IH (S i) (<[i := data']> orn)).
    destruct (forEachChild mode fi camera group t delta (S i) todo _).
    cbn [fst length] in IH |- *. lia.
  - specialize (IH (S i) orn).
    destruct (forEachChild mode fi camera group t delta (S i) todo _).
    cbn [fst length] in IH |- *. lia.
Qed.

(** A frame with a group in place: the stored ornaments afterwards. *)
Lemma useFrame_ornaments handRotation camera t delta s group j :
  groupRef s = Some group ->
  ornaments (useFrame handRotation camera t delta s) !! j
  = if bool_decide (j < length (children group))%nat
    then stored (mode s) t <$> ornaments s !! j
    else ornaments s !! j.
Proof.
  intros Hg. unfold TreeScene.useFrame. rewrite Hg.
  match goal with
  | |- context [forEachChild ?m ?f ?c ?g ?t ?d 0 ?todo ?o] =>
      pose proof (forEachChild_ornaments m f c g t d todo 0 o j) as H;
      assert (Hlen : length todo = length (children group))
        by (destruct (decide (mode s <> FOCUS)); reflexivity);
      destruct (forEachChild m f c g t d 0 todo o) as [cs os]
  end.
  cbn [snd ornaments] in H |- *. rewrite H, Hlen.
  repeat case_bool_decide; try reflexivity; lia.
Qed.

Lemma useFrame_fields handRotation camera t delta s :
  let s' := useFrame handRotation camera t delta s in
  mode s' = mode s /\ focusedIndex s' = focusedIndex s
  /\ userImages s' = userImages s /\ draws s' = draws s.
Proof.
  unfold TreeScene.useFrame. destruct (groupRef s); [|auto].
  destruct (forEachChild _ _ _ _ _ _ _ _ _). cbn. auto.
Qed.

Lemma forEachChild_ornaments_length mode fi camera group t delta todo :
  forall i orn,
    length (forEachChild mode fi camera group t delta i todo orn).2
    = length orn.
Proof.
  induction todo as [|c todo IH]; intros i orn; [reflexivity|].
  cbn [TreeScene.forEachChild].
  destruct (orn !! i) as [data|].
  - destruct (animate mode fi camera group t delta i c data)
      as [child' data'].
    specialize (IH (S i) (<[i := data']> orn)).
    destruct (forEachChild mode fi camera group t delta (S i) todo _).
    cbn [snd] in IH |- *. rewrite IH. apply length_insert.
  - specialize (IH (S i) orn).
    destruct (forEachChild mode fi camera group t delta (S i) todo _).
    exact IH.
Qed.

Lemma useFrame_length handRotation camera t delta s :
  length (ornaments (useFrame handRotation camera t delta s))
  = length (ornaments s).
Proof.
  unfold TreeScene.useFrame. destruct (groupRef s); [|reflexivity].
  match goal with
  | |- context [forEachChild ?m ?f ?c ?g ?t ?d 0 ?todo ?o] =>
      pose proof (forEachChild_ornaments_length m f c g t d todo 0 o) as H;
      destruct (forEachChild m f c g t d 0 todo o) as [cs os]
  end.
  exact H.
Qed.

Lemma type_stored mode t data : type (stored mode t data) = type data.
Proof. unfold stored. destruct (decide (mode = SCATTER)); reflexivity. Qed.

Lemma useFrame_shaped handRotation camera t delta s :
  shaped s -> shaped (useFrame handRotation camera t delta s).
Proof.
  intros [Hlen Hty]. unfold shaped.
  rewrite useFrame_length.
  rewrite (proj1 (proj2 (proj2 (useFrame_fields _ _ _ _ _)))).
  split; [exact Hlen|]. intros i o.
  destruct (groupRef s) as [group|] eqn:Hg.
  - rewrite (useFrame_ornaments _ _ _ _ _ _ _ Hg).
    case_bool_decide; [|apply Hty].
    destruct (ornaments s !! i) as [data|] eqn:Hd; [|discriminate].
    cbn. intros [= <-]. rewrite type_stored. apply Hty, Hd.
  - unfold TreeScene.useFrame. rewrite Hg. apply Hty.
Qed.

(** No frame touches the stored tree position, and outside SCATTER mode
    no frame touches the stored scattered position either. *)
Lemma useFrame_base_positions handRotation camera t delta s j data' :
  ornaments (useFrame handRotation camera t delta s) !! j = Some data' ->
  exists data,
    ornaments s !! j = Some data
    /\ positionTree data' = positionTree data
    /\ (mode s <> SCATTER -> data' = data).
Proof.
  destruct (groupRef s) as [group|] eqn:Hg.
  - rewrite (useFrame_ornaments _ _ _ _ _ _ _ Hg).
    unfold stored.
    case_bool_decide; [|intros Hj; exists data'; auto].
    destruct (ornaments s !! j) as [data|]; [|discriminate].
    cbn. intros [= <-]. exists data. split; [reflexivity|].
    destruct (decide (mode s = SCATTER)); [|auto].
    split; [reflexivity | intros; contradiction].
  - unfold TreeScene.useFrame. rewrite Hg. intros H. exists data'. auto.
Qed.

(** In SCATTER mode a frame raises the stored scattered height of every
    ornament that has a child by the oscillation term. *)
Lemma useFrame_scatter_store handRotation camera t delta s group j data :
  groupRef s = Some group -> mode s = SCATTER ->
  (j < length (children group))%nat ->
  ornaments s !! j = Some data ->
  ornaments (useFrame handRotation camera t delta s) !! j
  = Some (float t data).
Proof.
  intros Hg Hm Hj Hd.
  rewrite (useFrame_ornaments _ _ _ _ _ _ _ Hg).
  rewrite bool_decide_eq_true_2 by exact Hj.
  rewrite Hd, Hm. reflexivity.
Qed.

(** *** Focused mode without photos *)

Lemma aim_unfocused focusedIndex camera group t i child data :
  type data <> PHOTO ->
  aim FOCUS focusedIndex camera group t i child data
  = {| targetPos := positionScatter data;
       targetScale := Vector3.mk (scale data) (scale data) (scale data);
       aimedChild := child;
       aimedData := data |}.
Proof.
  intros Ht. unfold TreeScene.aim, isFocusedPhoto.
  rewrite bool_decide_eq_false_2 by exact Ht. reflexivity.
Qed.

(** C7, amended.  When no ornament is a photo, Focused mode gives every
    particle its stored scattered position as target, the same target
    scale as Scattered mode, and leaves the child and the record alone:
    no particle passes the focused-photo test.  Scattered mode's target
    is that position with the oscillation term added to its height. *)
Theorem focus_without_photos (ornaments : list OrnamentData)
    (focusedIndex : option Z) (camera : Camera) (group : Group Matrix4)
    (t : R) (i : nat) (child : Object3D) (data : OrnamentData)
    (Hnone : Forall (fun o => type o <> PHOTO) ornaments)
    (Hdata : ornaments !! i = Some data) :
  let focus := aim FOCUS focusedIndex camera group t i child data in
  let scatter := aim SCATTER focusedIndex camera group t i child data in
  isFocusedPhoto data i focusedIndex = false
  /\ targetPos focus = positionScatter data
  /\ targetScale focus = targetScale scatter
  /\ aimedChild focus = child
  /\ aimedData focus = data
  /\ targetPos scatter
     = Vector3.mk
         (Vector3.x (targetPos focus))
         (Vector3.y (targetPos focus)
          + sin (t * 0.5 + Vector3.x (positionScatter data)) * 0.05)
         (Vector3.z (targetPos focus)).
Proof.
  intros focus scatter.
  assert (Ht : type data <> PHOTO)
    by (apply (proj1 (Forall_lookup _ _) Hnone i data Hdata)).
  unfold focus. rewrite aim_unfocused by exact Ht.
  split.
  { unfold isFocusedPhoto.
    rewrite bool_decide_eq_false_2 by exact Ht. reflexivity. }
  repeat split; reflexivity.
Qed.

(** *** Interpolation in TREE mode *)

Lemma lerp_distance (p q : Vector3.t) (alpha : R) :
  0 <= alpha <= 1 ->
  Vector3.distanceTo (Vector3.lerp p q alpha) q
  = (1 - alpha) * Vector3.distanceTo p q.
Proof.
  intros Ha. unfold Vector3.distanceTo, Vector3.lerp.
  cbn [Vector3.x Vector3.y Vector3.z].
  set (S := (Vector3.x p - Vector3.x q) ^ 2
            + (Vector3.y p - Vector3.y q) ^ 2
            + (Vector3.z p - Vector3.z q) ^ 2).
  assert (HS : 0 <= S).
  { unfold S.
    pose proof (pow2_ge_0 (Vector3.x p - Vector3.x q)).
    pose proof (pow2_ge_0 (Vector3.y p - Vector3.y q)).
    pose proof (pow2_ge_0 (Vector3.z p - Vector3.z q)). lra. }
  match goal with
  | |- sqrt ?e = _ => replace e with ((1 - alpha) ^ 2 * S)
      by (unfold S; ring)
  end.
  rewrite sqrt_mult by (try apply pow2_ge_0; exact HS).
  rewrite sqrt_pow2 by lra. reflexivity.
Qed.

Lemma useFrame_tree handRotation camera t delta s i child data :
  mode s = TREE -> childAt s i = Some child ->
  ornaments s !! i = Some data ->
  let s' := useFrame handRotation camera t delta s in
  mode s' = TREE
  /\ ornaments s' !! i = Some data
  /\ exists child',
      childAt s' i = Some child'
      /\ position child'
         = Vector3.lerp (position child) (positionTree data) (delta * 2).
Proof.
  intros Hm Hc Hd s'.
  split; [unfold s'; rewrite (proj1 (useFrame_fields _ _ _ _ _)); exact Hm|].
  unfold childAt in Hc.
  destruct (groupRef s) as [group|] eqn:Hg; [|discriminate].
  split.
  { unfold s'. rewrite (useFrame_ornaments _ _ _ _ _ _ _ Hg).
    rewrite Hd, Hm. unfold stored. cbn.
    case_bool_decide; reflexivity. }
  unfold s', TreeScene.useFrame, childAt. rewrite Hg, Hm.
  match goal with
  | |- context [forEachChild ?m ?f ?c ?g ?t ?d 0 ?todo ?o] =>
      pose proof (forEachChild_children m f c g t d todo 0 o i child) as H;
      destruct (forEachChild m f c g t d 0 todo o) as [cs os]
  end.
  cbn [fst] in H. cbn [groupRef children].
  rewrite H by (destruct (decide (TREE <> FOCUS)); exact Hc).
  cbn [Nat.add]. rewrite Hd.
  eexists; split; [reflexivity|].
  unfold TreeScene.animate, TreeScene.aim, lerpFactor.
  cbn [fst aimedChild targetPos].
  destruct (decide (TREE = FOCUS)); [discriminate|].
  destruct (decide (type data <> PHOTO)); reflexivity.
Qed.

Lemma frames_tree_gap (ticks : list Tick) :
  forall s i child data,
    mode s = TREE -> childAt s i = Some child ->
    ornaments s !! i = Some data ->
    is_Some (childAt (frames (1 / 60) ticks s) i)
    /\ gap (frames (1 / 60) ticks s) i (positionTree data)
       = (29 / 30) ^ length ticks * gap s i (positionTree data).
Proof.
  induction ticks as [|tick ticks IH]; intros s i child data Hm Hc Hd.
  - cbn. split; [rewrite Hc; eauto | lra].
  - destruct (useFrame_tree (tickRotation tick) (tickCamera tick)
                (tickTime tick) (1 / 60) s i child data Hm Hc Hd)
      as (Hm' & Hd' & child' & Hc' & Hp).
    destruct (IH _ i child' data Hm' Hc' Hd') as [Hsome Hgap].
    unfold TreeScene.frames in *. cbn [foldl length].
    split; [exact Hsome|]. rewrite Hgap.
    unfold gap. rewrite Hc', Hc, Hp.
    rewrite lerp_distance by lra. cbn [pow]. lra.
Qed.

Lemma pow_29_30_340 : (29 / 30) ^ 340 < 1 / 100000.
Proof.
  assert (HZ : (29 ^ 340 * 100000 < 30 ^ 340)%Z)
    by (vm_compute; reflexivity).
  apply IZR_lt in HZ. rewrite mult_IZR in HZ.
  change 340%Z with (Z.of_nat 340) in HZ.
  rewrite <- !pow_IZR in HZ.
  unfold Rdiv. rewrite Rpow_mult_distr, pow_inv.
  assert (H30 : 0 < 30 ^ 340) by (apply pow_lt; lra).
  apply (Rmult_lt_reg_r (30 ^ 340)); [exact H30|].
  rewrite Rmult_assoc, Rinv_l by lra.
  apply (Rmult_lt_reg_r 100000); [lra|].
  replace (1 * / 100000 * 30 ^ 340 * 100000) with (30 ^ 340) by field.
  lra.
Qed.

Lemma pow_29_30_antitone (n m : nat) :
  (n <= m)%nat -> (29 / 30) ^ m <= (29 / 30) ^ n.
Proof.
  induction 1 as [|m _ IH]; [lra|].
  cbn [pow]. assert (0 < (29 / 30) ^ m) by (apply pow_lt; lra). lra.
Qed.


End FrameFacts.

(** ** The focus selector *)

Section FocusFacts.
Import Types Constants TreeScene.

Variable random : nat -> R.
Hypothesis random_range : forall k, 0 <= random k < 1.

Variable Matrix4 : Type.
Variable invert : Matrix4 -> Matrix4.
Variable applyMatrix4 : Vector3.t -> Matrix4 -> Vector3.t.
Variable lookAt : Group Matrix4 -> Object3D -> Vector3.t -> Euler.t.

Abbreviation useFrame := (TreeScene.useFrame Matrix4 invert applyMatrix4 lookAt).
Abbreviation reachable :=
  (TreeScene.reachable random Matrix4 invert applyMatrix4 lookAt).
Abbreviation mount := (@TreeScene.mount random Matrix4).
Abbreviation render := (@TreeScene.render random Matrix4).

Lemma photoIndices_offset (l : list OrnamentData) :
  forall off P,
    (P <= length l)%nat ->
    (forall i o, l !! i = Some o -> (type o = PHOTO <-> (i < P)%nat)) ->
    filter (fun i => i <> (-1)%Z)
      (imap (fun i o => if decide (type o = PHOTO)
                        then Z.of_nat (off + i) else (-1)%Z) l)
    = Z.of_nat <$> seq off P.
Proof.
  induction l as [|o l IH]; intros off P HP Hl.
  - cbn in HP. replace P with 0%nat by lia. reflexivity.
  - rewrite imap_cons.
    assert (Htail :
               imap ((fun i o' => if decide (type o' = PHOTO)
                                  then Z.of_nat (off + i) else (-1)%Z) ∘ S) l
               = imap (fun i o' => if decide (type o' = PHOTO)
                                   then Z.of_nat (S off + i) else (-1)%Z) l).
    { apply imap_ext. intros i o' _. unfold compose.
      replace (off + S i)%nat with (S off + i)%nat by lia. reflexivity. }
    rewrite Htail.
    destruct P as [|P'].
    + assert (Ho : type o <> PHOTO)
        by (intros Hp; apply (Hl 0%nat o eq_refl) in Hp; lia).
      destruct (decide (type o = PHOTO)); [contradiction|].
      rewrite filter_cons_False by (intros Hne; apply Hne; reflexivity).
      apply (IH (S off) 0%nat); [lia|].
      intros i o' Hi. rewrite (Hl (S i) o' Hi). lia.
    + assert (Ho : type o = PHOTO)
        by (apply (Hl 0%nat o eq_refl); lia).
      destruct (decide (type o = PHOTO)); [|contradiction].
      rewrite filter_cons_True by lia.
      rewrite Nat.add_0_r. cbn [seq fmap list_fmap]. f_equal.
      apply (IH (S off) P'); [cbn in HP; lia|].
      intros i o' Hi. rewrite (Hl (S i) o' Hi). lia.
Qed.

Lemma photoIndices_shaped (ornaments : list OrnamentData) (P : nat) :
  (P <= length ornaments)%nat ->
  (forall i o, ornaments !! i = Some o -> (type o = PHOTO <-> (i < P)%nat)) ->
  photoIndices ornaments = Z.of_nat <$> seq 0 P.
Proof.
  intros HP Hl. unfold photoIndices.
  apply (photoIndices_offset ornaments 0 P HP Hl).
Qed.

(** [Math.floor(u * P)] is an index below [P]. *)
Lemma floor_draw (u : R) (P : nat) :
  0 <= u < 1 -> (0 < P)%nat ->
  (0 <= Zfloor (u * INR P) < Z.of_nat P)%Z.
Proof.
  intros Hu HP.
  assert (HPr : 0 < INR P) by (apply lt_0_INR; exact HP).
  pose proof (Zfloor_bound (u * INR P)) as [Hlo Hhi].
  assert (Hx : 0 <= u * INR P < INR P) by nra.
  split.
  - assert (H : (-1 < Zfloor (u * INR P))%Z) by (apply lt_IZR; lra).
    lia.
  - apply lt_IZR. rewrite <- INR_IZR_INZ. lra.
Qed.

(** Each index is picked by the draws of one interval of length 1/P. *)
Lemma floor_draw_interval (u : R) (P : nat) (j : Z) :
  (0 < P)%nat ->
  Zfloor (u * INR P) = j
  <-> IZR j / INR P <= u < (IZR j + 1) / INR P.
Proof.
  intros HP.
  assert (HPr : 0 < INR P) by (apply lt_0_INR; exact HP).
  split.
  - intros <-. pose proof (Zfloor_bound (u * INR P)) as [Hlo Hhi].
    split.
    + apply (Rmult_le_reg_r (INR P)); [exact HPr|].
      unfold Rdiv. rewrite Rmult_assoc, Rinv_l by lra. lra.
    + apply (Rmult_lt_reg_r (INR P)); [exact HPr|].
      unfold Rdiv. rewrite Rmult_assoc, Rinv_l by lra. lra.
  - intros [Hlo Hhi]. apply Zfloor_eq. split.
    + apply (Rmult_le_compat_r (INR P)) in Hlo; [|lra].
      unfold Rdiv in Hlo. rewrite Rmult_assoc, Rinv_l in Hlo by lra. lra.
    + apply (Rmult_lt_compat_r (INR P)) in Hhi; [|lra].
      unfold Rdiv in Hhi. rewrite Rmult_assoc, Rinv_l in Hhi by lra. lra.
Qed.

Lemma focusEffect_spec mode userImages ornaments focusedIndex k :
  (length ornaments = ORNAMENT_COUNT + length userImages)%nat ->
  (forall i o, ornaments !! i = Some o ->
               (type o = PHOTO <-> (i < length userImages)%nat)) ->
  focusEffect random mode userImages ornaments focusedIndex k
  = if bool_decide (mode = FOCUS)
       && bool_decide (0 < length userImages)%nat
    then (Some (Zfloor (random k * INR (length userImages))), S k)
    else (focusedIndex, k).
Proof.
  intros Hlen Hl. unfold focusEffect.
  destruct (bool_decide (mode = FOCUS)
            && bool_decide (0 < length userImages)%nat) eqn:Hc;
    [|reflexivity].
  apply andb_prop in Hc as [_ HP]. apply bool_decide_eq_true in HP.
  rewrite (photoIndices_shaped ornaments (length userImages))
    by (try exact Hl; lia).
  rewrite length_fmap, length_seq.
  rewrite bool_decide_eq_true_2 by exact HP.
  pose proof (floor_draw (random k) (length userImages)
                (random_range k) HP) as [Hlo Hhi].
  f_equal.
  assert (E : (Z.of_nat <$> seq 0 (length userImages))
                !! Z.to_nat (Zfloor (random k * INR (length userImages)))
              = Some (Zfloor (random k * INR (length userImages)))).
  { rewrite list_lookup_fmap, lookup_seq_lt by lia. cbn. f_equal. lia. }
  destruct (Zfloor (random k * INR (length userImages))) eqn:Ez;
    [exact E | exact E | lia].
Qed.

Lemma ornamentsOf_shape userImages k :
  length (ornamentsOf random userImages k).1
  = (ORNAMENT_COUNT + length userImages)%nat
  /\ forall i o, (ornamentsOf random userImages k).1 !! i = Some o ->
                 (type o = PHOTO <-> (i < length userImages)%nat).
Proof.
  unfold ornamentsOf. split.
  - apply generate_length.
  - intros i o. apply generate_types.
Qed.

Lemma mount_exact mode userImages k :
  mount mode userImages k
  = let gen := ornamentsOf random userImages k in
    let eff := focusEffect random mode userImages gen.1 (Some 0%Z) gen.2 in
    {| groupRef := None; smoothRotation := 0; focusedIndex := eff.1;
       ornaments := gen.1; mode := mode; userImages := userImages;
       draws := eff.2 |}.
Proof.
  unfold TreeScene.mount.
  destruct (ornamentsOf random userImages k) as [orn k1].
  cbn [fst snd].
  destruct (focusEffect random mode userImages orn (Some 0%Z) k1).
  reflexivity.
Qed.

Lemma mount_shaped mode userImages k : shaped (mount mode userImages k).
Proof.
  unfold TreeScene.mount.
  pose proof (ornamentsOf_shape userImages k) as Hs.
  destruct (ornamentsOf random userImages k) as [orn k1].
  destruct (focusEffect random mode userImages orn (Some 0%Z) k1).
  exact Hs.
Qed.

(** A render, field by field.  [k] is the draw count once [useMemo]
    has run. *)
Lemma render_exact mode' upload (s : Scene Matrix4) :
  shaped s ->
  exists orn k,
    (upload = None -> orn = ornaments s /\ k = draws s)
    /\ length orn
       = (ORNAMENT_COUNT + length (nextImages upload s))%nat
    /\ (forall i o, orn !! i = Some o ->
          (type o = PHOTO <-> (i < length (nextImages upload s))%nat))
    /\ render mode' upload s
       = {| groupRef := groupRef s;
            smoothRotation := smoothRotation s;
            focusedIndex :=
              if selects mode' upload s
              then Some (Zfloor (random k
                                 * INR (length (nextImages upload s))))
              else focusedIndex s;
            ornaments := orn;
            mode := mode';
            userImages := nextImages upload s;
            draws := if selects mode' upload s then S k else k |}.
Proof.
  intros Hs. unfold TreeScene.render, selects.
  fold (nextImages upload s).
  set (imgs := nextImages upload s).
  assert (Hgen : exists orn k,
             match upload with
             | Some _ => ornamentsOf random imgs (draws s)
             | None => (ornaments s, draws s)
             end = (orn, k)
             /\ (upload = None -> orn = ornaments s /\ k = draws s)
             /\ length orn = (ORNAMENT_COUNT + length imgs)%nat
             /\ forall i o, orn !! i = Some o ->
                            (type o = PHOTO <-> (i < length imgs)%nat)).
  { destruct upload as [files|].
    - destruct (ornamentsOf random imgs (draws s)) as [orn k] eqn:E.
      exists orn, k. split; [reflexivity|]. split; [discriminate|].
      pose proof (ornamentsOf_shape imgs (draws s)) as Hshape.
      rewrite E in Hshape. exact Hshape.
    - exists (ornaments s), (draws s). split; [reflexivity|].
      split; [auto|]. exact Hs. }
  destruct Hgen as (orn & k & -> & Hnone & Hlen & Hty).
  exists orn, k. split; [exact Hnone|]. split; [exact Hlen|].
  split; [exact Hty|].
  destruct (bool_decide (mode' = mode s)
            && bool_decide (length imgs = length (userImages s)));
    [reflexivity|].
  rewrite (focusEffect_spec mode' imgs orn (focusedIndex s) k Hlen Hty).
  cbn [negb andb].
  destruct (bool_decide (mode' = FOCUS)
            && bool_decide (0 < length imgs)%nat); reflexivity.
Qed.

Lemma selects_true mode' upload (s : Scene Matrix4) :
  selects mode' upload s = true
  <-> (mode' <> mode s
       \/ length (nextImages upload s) <> length (userImages s))
      /\ mode' = FOCUS
      /\ (0 < length (nextImages upload s))%nat.
Proof.
  unfold selects.
  rewrite !andb_true_iff, negb_true_iff, andb_false_iff.
  rewrite !bool_decide_eq_false, !bool_decide_eq_true. reflexivity.
Qed.

(** What a render does to the focus: nothing, or a draw among the
    photos of the new list while the new mode is FOCUS. *)
Lemma render_focus mode' upload (s : Scene Matrix4) :
  shaped s ->
  let s' := render mode' upload s in
  shaped s'
  /\ mode s' = mode'
  /\ userImages s' = nextImages upload s
  /\ groupRef s' = groupRef s
  /\ (upload = None -> ornaments s' = ornaments s)
  /\ exists k,
      (upload = None -> k = draws s)
      /\ focusedIndex s'
         = (if selects mode' upload s
            then Some (Zfloor (random k
                               * INR (length (nextImages upload s))))
            else focusedIndex s)
      /\ draws s' = (if selects mode' upload s then S k else k).
Proof.
  intros Hs s'.
  destruct (render_exact mode' upload s Hs)
    as (orn & k & Hnone & Hlen & Hty & E).
  unfold s'. rewrite E. cbn.
  split; [split; assumption|]. split; [reflexivity|].
  split; [reflexivity|]. split; [reflexivity|].
  split; [intros H; apply Hnone, H|].
  exists k. split; [intros H; apply Hnone, H|].
  split; reflexivity.
Qed.

(** An upload into a scene that is in FOCUS mode without photos. *)
Lemma upload_in_focus (s : Scene Matrix4) (files : list string) :
  shaped s -> mode s = FOCUS -> userImages s = [] ->
  (0 < length files)%nat ->
  mode (render FOCUS (Some files) s) = FOCUS
  /\ exists k,
      focusedIndex (render FOCUS (Some files) s)
      = Some (Zfloor (random k * INR (length files))).
Proof.
  intros Hs Hm Hi Hfiles.
  destruct (render_focus FOCUS (Some files) s Hs)
    as (_ & Hm' & _ & _ & _ & k & _ & Hfi & _).
  split; [exact Hm'|]. exists k. rewrite Hfi.
  assert (Himgs : nextImages (Some files) s = files)
    by (unfold nextImages; rewrite Hi; apply app_nil_l).
  assert (Hsel : selects FOCUS (Some files) s = true).
  { apply selects_true. rewrite Himgs, Hi.
    split; [right; cbn [length]; lia|]. split; [reflexivity | exact Hfiles]. }
  rewrite Hsel, Himgs. reflexivity.
Qed.

Lemma reachable_shaped s : reachable s -> shaped s.
Proof.
  induction 1 as [mode0 imgs k | mode' upload s _ IH
                 | h c t d s _ IH | group s _ IH].
  - apply mount_shaped.
  - apply (render_focus mode' upload s IH).
  - apply useFrame_shaped, IH.
  - exact IH.
Qed.

(** A render that keeps the mode and the photo list keeps the focus. *)
Lemma render_same_deps (s : Scene Matrix4) :
  focusedIndex (render (mode s) None s) = focusedIndex s
  /\ draws (render (mode s) None s) = draws s.
Proof.
  unfold TreeScene.render.
  rewrite !bool_decide_eq_true_2 by reflexivity. cbn. auto.
Qed.

(** The index a shaped scene picks is a photo of that scene. *)
Lemma picked_is_photo (s : Scene Matrix4) (u : R) :
  shaped s -> 0 <= u < 1 -> (0 < length (userImages s))%nat ->
  exists o,
    ornaments s !! Z.to_nat (Zfloor (u * INR (length (userImages s))))
    = Some o
    /\ type o = PHOTO.
Proof.
  intros [Hlen Hty] Hu HP.
  pose proof (floor_draw u (length (userImages s)) Hu HP) as [Hlo Hhi].
  destruct (lookup_lt_is_Some_2 (ornaments s)
              (Z.to_nat (Zfloor (u * INR (length (userImages s))))))
    as [o Ho]; [lia|].
  exists o. split; [exact Ho|]. apply (Hty _ _ Ho). lia.
Qed.


End FocusFacts.

(** ** Worked sessions *)

Section Sessions.
Import Types Constants TreeScene.

Lemma drawsHalf_range (k : nat) : 0 <= drawsHalf k < 1.
Proof. unfold drawsHalf. lra. Qed.

Lemma sin_half_pos : 0 < sin (1 / 2).
Proof.
  apply sin_gt_0; [lra|]. pose proof PI2_1. lra.
Qed.

Lemma firstGem_scatter :
  positionScatter firstGem
  = Vector3.mk ((1 / 2 - 0.5) * 50) ((1 / 2 - 0.5) * 35)
               ((1 / 2 - 0.5) * 25).
Proof. reflexivity. Qed.

Lemma mount_first (mode : AppMode) :
  ornaments (@mount drawsHalf unit mode [] 0) !! 0%nat = Some firstGem.
Proof.
  rewrite mount_exact. cbn [ornaments fst]. unfold ornamentsOf.
  apply (lookup_generate_gem drawsHalf ORNAMENT_COUNT [] 0 0).
  unfold ORNAMENT_COUNT. lia.
Qed.

Lemma mount_no_photos (mode : AppMode) :
  Forall (fun o => type o <> PHOTO)
         (ornaments (@mount drawsHalf unit mode [] 0)).
Proof.
  apply Forall_lookup. intros i o Ho.
  destruct (mount_shaped drawsHalf unit mode [] 0) as [_ Hty].
  intros Hp. apply (Hty i o Ho) in Hp.
  rewrite mount_exact in Hp. cbn in Hp. lia.
Qed.

Lemma setGroupRef_shaped {M : Type} (group : Group M) (s : Scene M) :
  shaped s -> shaped (setGroupRef group s).
Proof. intros H. exact H. Qed.

Lemma nextImages_None {M : Type} (s : Scene M) :
  nextImages None s = userImages s.
Proof. reflexivity. Qed.

Lemma sessionStart_shaped : shaped sessionStart.
Proof.
  unfold sessionStart, attach.
  apply setGroupRef_shaped, mount_shaped.
Qed.

Lemma sessionScatter_facts :
  mode sessionScatter = SCATTER
  /\ ornaments sessionScatter = ornaments sessionStart
  /\ groupRef sessionScatter = groupRef sessionStart.
Proof.
  unfold sessionScatter.
  destruct (render_focus drawsHalf drawsHalf_range unit SCATTER None
              sessionStart sessionStart_shaped)
    as (_ & Hm & _ & Hg & Ho & _).
  split; [exact Hm|]. split; [apply Ho; reflexivity | exact Hg].
Qed.

Lemma sessionStart_first :
  ornaments sessionStart !! 0%nat = Some firstGem
  /\ groupRef sessionStart
     = Some {| rotationY := 0; matrixWorld := tt;
               children := childOf <$> ornaments sessionStart |}.
Proof.
  unfold sessionStart, attach, setGroupRef. cbn [ornaments groupRef].
  split; [apply (mount_first TREE) | reflexivity].
Qed.

(** C1 fails on the code.  In a session without photos, after one frame
    of SCATTER mode at clock time 1, the stored scattered position of
    ornament 0 has moved: its height was 0 when generated and is
    sin(1/2) * 0.05 now.  The stored tree position is unchanged. *)
Theorem scatter_frame_overwrites_base :
  exists before after,
    ornaments sessionScatter !! 0%nat = Some before
    /\ ornaments sessionFrame !! 0%nat = Some after
    /\ positionTree after = positionTree before
    /\ Vector3.y (positionScatter before) = 0
    /\ Vector3.y (positionScatter after) = sin (1 / 2) * 0.05
    /\ positionScatter after <> positionScatter before.
Proof.
  destruct sessionScatter_facts as (Hm & Ho & Hg).
  destruct sessionStart_first as (Hstart & Hgroup).
  rewrite Hgroup in Hg.
  assert (Hfirst : ornaments sessionScatter !! 0%nat = Some firstGem)
    by (rewrite Ho; exact Hstart).
  assert (Hframe : ornaments sessionFrame !! 0%nat
                   = Some (float 1 firstGem)).
  { unfold sessionFrame.
    apply (useFrame_scatter_store unit flatInvert flatApply flatLookAt
             0 frontCamera 1 (1 / 60) sessionScatter _ 0 firstGem
             Hg Hm); [|exact Hfirst].
    cbn [children]. rewrite length_fmap.
    apply lookup_lt_Some with (x := firstGem). exact Hstart. }
  exists firstGem, (float 1 firstGem).
  split; [exact Hfirst|]. split; [exact Hframe|].
  split; [reflexivity|].
  assert (Hy : Vector3.y (positionScatter (float 1 firstGem))
               = sin (1 / 2) * 0.05).
  { unfold float. rewrite firstGem_scatter.
    cbn [positionScatter Vector3.x Vector3.y].
    replace (1 * 0.5 + (1 / 2 - 0.5) * 50) with (1 / 2) by lra. lra. }
  split; [rewrite firstGem_scatter; cbn; lra|].
  split; [exact Hy|].
  intros E. apply (f_equal Vector3.y) in E. rewrite Hy in E.
  rewrite firstGem_scatter in E. cbn in E.
  pose proof sin_half_pos. lra.
Qed.

Lemma sessionStart_no_photos :
  Forall (fun o => type o <> PHOTO) (ornaments sessionStart).
Proof.
  unfold sessionStart, attach, setGroupRef. cbn [ornaments].
  apply (mount_no_photos TREE).
Qed.

Abbreviation flatAim := (aim unit flatInvert flatApply flatLookAt).

(** C7, as the specification words it, fails: in a session without
    photos the target of ornament 0 at clock time 1 is its stored
    scattered position in FOCUS mode, and a different point in SCATTER
    mode. *)
Lemma focus_target_is_not_scatter_target :
  Forall (fun o => type o <> PHOTO) (ornaments sessionScatter)
  /\ ornaments sessionScatter !! 0%nat = Some firstGem
  /\ targetPos (flatAim FOCUS (Some 0%Z) frontCamera flatGroup 1 0
                        (childOf firstGem) firstGem)
     <> targetPos (flatAim SCATTER (Some 0%Z) frontCamera flatGroup 1 0
                          (childOf firstGem) firstGem).
Proof.
  destruct sessionScatter_facts as (_ & Ho & _).
  split; [rewrite Ho; exact sessionStart_no_photos|].
  split; [rewrite Ho; apply sessionStart_first|].
  rewrite aim_unfocused by apply type_gemItem.
  cbn [targetPos aim float positionScatter].
  intros E. apply (f_equal Vector3.y) in E. revert E.
  rewrite firstGem_scatter. cbn [Vector3.x Vector3.y].
  replace (1 * 0.5 + (1 / 2 - 0.5) * 50) with (1 / 2) by lra.
  pose proof sin_half_pos. lra.
Qed.

Lemma focus_without_photos_witness :
  Forall (fun o => type o <> PHOTO) (ornaments sessionScatter)
  /\ ornaments sessionScatter !! 0%nat = Some firstGem
  /\ targetPos (flatAim FOCUS (Some 0%Z) frontCamera flatGroup 1 0
                        (childOf firstGem) firstGem)
     = positionScatter firstGem.
Proof.
  destruct sessionScatter_facts as (_ & Ho & _).
  assert (Hnone : Forall (fun o => type o <> PHOTO)
                         (ornaments sessionScatter))
    by (rewrite Ho; exact sessionStart_no_photos).
  assert (Hdata : ornaments sessionScatter !! 0%nat = Some firstGem)
    by (rewrite Ho; apply sessionStart_first).
  split; [exact Hnone|]. split; [exact Hdata|].
  destruct (focus_without_photos unit flatInvert flatApply flatLookAt
              (ornaments sessionScatter) (Some 0%Z) frontCamera flatGroup
              1 0 (childOf firstGem) firstGem Hnone Hdata)
    as (_ & Htarget & _).
  exact Htarget.
Defined.

(** *** Pinch first, upload afterwards *)

Lemma mount_tree_fields :
  mode (@mount drawsHalf unit TREE [] 0) = TREE
  /\ userImages (@mount drawsHalf unit TREE [] 0) = []
  /\ focusedIndex (@mount drawsHalf unit TREE [] 0) = Some 0%Z.
Proof.
  rewrite mount_exact. cbn [mode userImages focusedIndex].
  unfold focusEffect.
  rewrite (bool_decide_eq_false_2 (TREE = FOCUS)) by discriminate.
  auto.
Qed.

Lemma pinchNoPhotos_fields :
  shaped pinchNoPhotos
  /\ mode pinchNoPhotos = FOCUS
  /\ userImages pinchNoPhotos = []
  /\ focusedIndex pinchNoPhotos = Some 0%Z.
Proof.
  destruct mount_tree_fields as (Hm & Hi & Hf).
  assert (Hs : shaped (@mount drawsHalf unit TREE [] 0))
    by apply mount_shaped.
  unfold pinchNoPhotos.
  destruct (render_focus drawsHalf drawsHalf_range unit FOCUS None _ Hs)
    as (Hs' & Hm' & Hi' & _ & _ & k & _ & Hfi & _).
  rewrite nextImages_None, Hi in Hi'.
  split; [exact Hs'|]. split; [exact Hm'|]. split; [exact Hi'|].
  rewrite Hfi.
  destruct (selects FOCUS None (mount drawsHalf TREE [] 0)) eqn:Hsel;
    [|exact Hf].
  apply selects_true in Hsel as (_ & _ & Hpos).
  rewrite nextImages_None, Hi in Hpos. cbn [length] in Hpos. lia.
Qed.

Lemma pinchFrame_fields :
  shaped pinchFrame
  /\ mode pinchFrame = FOCUS
  /\ userImages pinchFrame = []
  /\ focusedIndex pinchFrame = Some 0%Z.
Proof.
  destruct pinchNoPhotos_fields as (Hs & Hm & Hi & Hf).
  unfold pinchFrame.
  destruct (useFrame_fields unit flatInvert flatApply flatLookAt
              0 frontCamera 1 (1 / 60) pinchNoPhotos)
    as (Hm' & Hf' & Hi' & _).
  split; [apply useFrame_shaped, Hs|].
  split; [rewrite Hm'; exact Hm|].
  split; [rewrite Hi'; exact Hi | rewrite Hf'; exact Hf].
Qed.

Lemma floor_half_of_two (k : nat) : Zfloor (drawsHalf k * INR 2) = 1%Z.
Proof.
  apply Zfloor_eq. unfold drawsHalf. cbn [INR]. lra.
Qed.


Lemma pinchUpload_reachable :
  reachable drawsHalf unit flatInvert flatApply flatLookAt pinchUpload.
Proof.
  apply reachable_render. unfold pinchFrame.
  apply reachable_frame. unfold pinchNoPhotos.
  apply reachable_render. apply reachable_mount.
Qed.


(** *** A child that is away from its tree position *)

Lemma restingScene_fields :
  mode restingScene = TREE
  /\ childAt restingScene 0 = Some restingChild
  /\ ornaments restingScene !! 0%nat = Some firstGem.
Proof.
  unfold restingScene, setGroupRef, childAt.
  cbn [mode groupRef children ornaments].
  split; [apply mount_tree_fields|]. split; [reflexivity|].
  apply (mount_first TREE).
Qed.

Lemma restingScene_gap :
  0 < gap restingScene 0 (positionTree firstGem).
Proof.
  unfold gap. cbn [childAt restingScene setGroupRef groupRef children
                   lookup list_lookup restingChild position].
  unfold Vector3.distanceTo. apply sqrt_lt_R0.
  cbn [firstGem gemItem positionTree gemPosition Vector3.x Vector3.y
       Vector3.z].
  unfold gemY, TREE_HEIGHT. cbn [INR].
  pose proof (pow2_ge_0 (0 - cos (0 * goldenAngle)
                             * (radiusAtHeight ORNAMENT_COUNT 0
                                * sqrt (drawsHalf 0 * 0.3 + 0.7)))).
  pose proof (pow2_ge_0 (0 - sin (0 * goldenAngle)
                             * (radiusAtHeight ORNAMENT_COUNT 0
                                * sqrt (drawsHalf 0 * 0.3 + 0.7)))).
  unfold radiusAtHeight, gemY, TREE_HEIGHT in *. cbn [INR] in *.
  replace (0 - (0 / INR ORNAMENT_COUNT * 15 - 15 / 2)) with (15 / 2)
    by (unfold Rdiv; lra).
  lra.
Qed.


End Sessions.

(** ** Two further instances *)

Section Instances.
Import Types Constants TreeScene.

Lemma mode_machine_witness :
  App.modeOf GestureService.OPEN_PALM = Some SCATTER
  /\ App.transition SCATTER GestureService.OPEN_PALM = SCATTER.
Proof.
  split; [reflexivity|].
  destruct mode_machine as (_ & _ & _ & Hsame & _).
  apply Hsame. reflexivity.
Defined.

Lemma generate_layout_witness :
  length (generate drawsHalf ORNAMENT_COUNT ["blob:a"] 0).1 = 351%nat
  /\ is_Some ((generate drawsHalf ORNAMENT_COUNT ["blob:a"] 0).1 !! 0%nat).
Proof.
  destruct (generate_layout drawsHalf ORNAMENT_COUNT ["blob:a"] 0)
    as (Hlen & _ & Hsome & _).
  split; [exact Hlen|].
  apply Hsome. unfold ORNAMENT_COUNT. cbn [length]. lia.
Defined.

End Instances.

(** * Further properties *)

(** ** The classifier beyond the claims *)

Section ClassifierMore.
Import GestureService Hands.

Lemma clamp_range (v : R) : -1 <= Rmax (-1) (Rmin 1 v) <= 1.
Proof.
  split; [apply Rmax_l|].
  apply Rmax_lub; [lra | apply Rmin_l].
Qed.

Lemma calculateHandRotation_range landmarks r :
  calculateHandRotation landmarks = Normal r -> -1 <= r <= 1.
Proof.
  unfold calculateHandRotation.
  destruct landmarks as [[|lm rest]|]; try (intros [= <-]; lra).
  destruct (lm !! 17%nat) as [p1|]; [|discriminate].
  destruct (lm !! 2%nat) as [p2|]; [|discriminate].
  cbn. intros [= <-]. apply clamp_range.
Qed.

(** X1.  Whatever the classifier returns, its rotation lies in [-1, 1];
    so does every value [calculateHandRotation] returns. *)
Theorem rotation_range (landmarks : option (list Hand)) :
  (forall r, calculateHandRotation landmarks = Normal r -> -1 <= r <= 1)
  /\ (forall res, classifyGesture landmarks = Normal res ->
        -1 <= rotation res <= 1).
Proof.
  split; [intros r; apply calculateHandRotation_range|].
  intros res. unfold classifyGesture.
  destruct (calculateHandRotation landmarks) as [rot|e] eqn:Hrot;
    [|discriminate].
  apply calculateHandRotation_range in Hrot.
  cbn [mbind Completion_bind].
  destruct landmarks as [[|lm rest]|]; try (intros [= <-]; cbn; lra).
  destruct (dist (lm !! 4%nat) (lm !! 8%nat)) as [d|]; [|discriminate].
  cbn [mbind Completion_bind].
  destruct (Rlt_dec d 0.05); [intros [= <-]; exact Hrot|].
  destruct (foldLoop _ _ _ _ _) as [n'|]; [|discriminate].
  cbn [mbind Completion_bind].
  destruct (3 <=? n')%nat; intros [= <-]; exact Hrot.
Qed.

Lemma rotation_range_witness :
  classifyGesture (Some [pinchedFist])
  = Normal {| gesture := PINCH; rotation := tilt pinchedFist |}
  /\ -1 <= tilt pinchedFist <= 1.
Proof.
  assert (E : classifyGesture (Some [pinchedFist])
              = Normal {| gesture := PINCH;
                          rotation := tilt pinchedFist |}).
  { rewrite classifyGesture_full by (cbn; lia).
    destruct (Rlt_dec _ _) as [_|Hn]; [reflexivity|].
    destruct Hn. exact pinchedFist_pinched. }
  split; [exact E|].
  apply (proj2 (rotation_range (Some [pinchedFist])) _ E).
Defined.

(** X2.  The classifier reads eleven landmarks of the first hand and
    nothing else: two inputs whose first hands agree at the indices
    0, 2, 4, 5, 8, 9, 12, 13, 16, 17 and 20 are classified alike, whatever
    the other landmarks and the other hands are. *)
Theorem classifyGesture_reads (lm lm' : Hand) (rest rest' : list Hand)
    (Hsame : Forall (fun i => lm !! i = lm' !! i) readLandmarks) :
  classifyGesture (Some (lm :: rest)) = classifyGesture (Some (lm' :: rest')).
Proof.
  unfold readLandmarks in Hsame.
  repeat match type of Hsame with
         | Forall _ (_ :: _) =>
             apply Forall_cons in Hsame as [? Hsame]
         end.
  unfold classifyGesture, calculateHandRotation.
  repeat match goal with
         | E : lm !! _ = lm' !! _ |- _ => rewrite E; clear E
         end.
  reflexivity.
Qed.

Lemma classifyGesture_reads_witness :
  classifyGesture (Some [pinchedFist; []])
  = classifyGesture (Some [<[1%nat := knuckle]> pinchedFist ++ [knuckle]]).
Proof.
  apply classifyGesture_reads.
  unfold readLandmarks. repeat constructor.
Defined.

(** *** Moving the whole hand *)

Lemma euclid_shift v p q : euclid (shift v p) (shift v q) = euclid p q.
Proof.
  unfold euclid, shift. cbn [x y z]. f_equal. ring.
Qed.

Lemma landmark_shift v (lm : Hand) k :
  (k < length lm)%nat ->
  landmark (shift v <$> lm) k = shift v (landmark lm k).
Proof.
  intros Hk. unfold landmark, Hand in *. rewrite list_lookup_fmap.
  destruct (lookup_lt_is_Some_2 lm k Hk) as [p ->]. reflexivity.
Qed.

Lemma tilt_shift v (lm : Hand) :
  (17 < length lm)%nat -> tilt (shift v <$> lm) = tilt lm.
Proof.
  intros H. unfold tilt. rewrite !landmark_shift by lia.
  unfold shift. cbn [y]. do 2 f_equal. ring.
Qed.

Lemma foldedBit_shift v (lm : Hand) tip mcp :
  (0 < length lm)%nat -> (tip < length lm)%nat -> (mcp < length lm)%nat ->
  foldedBit (shift v <$> lm) tip mcp = foldedBit lm tip mcp.
Proof.
  intros H0 Ht Hm. unfold foldedBit.
  rewrite !landmark_shift by assumption.
  rewrite !euclid_shift. reflexivity.
Qed.

(** X3.  The classification does not depend on where the hand is: moving
    every landmark of the first hand by the same vector changes neither
    the label, nor the rotation, nor whether the classifier throws. *)
Theorem classifyGesture_translation (v : Landmark) (lm : Hand)
    (rest : list Hand) :
  classifyGesture (Some ((shift v <$> lm) :: rest))
  = classifyGesture (Some (lm :: rest)).
Proof.
  destruct (Nat.lt_ge_cases (length lm) 21) as [Hlen|Hlen].
  - rewrite !classifyGesture_short by (rewrite ?length_fmap; exact Hlen).
    rewrite length_fmap.
    case_bool_decide; [reflexivity|].
    rewrite !landmark_shift by lia.
    rewrite euclid_shift, tilt_shift by lia. reflexivity.
  - rewrite !classifyGesture_full by (rewrite ?length_fmap; exact Hlen).
    rewrite !landmark_shift by lia.
    rewrite euclid_shift, tilt_shift by lia.
    unfold foldedFingers.
    rewrite !foldedBit_shift by lia. reflexivity.
Qed.

End ClassifierMore.

(** ** The mode machine beyond the claims *)

Section MachineMore.
Import Types App AppRuns Hands.
Import GestureService (NONE, OPEN_PALM, CLOSED_FIST, PINCH, Hand).

Lemma transition_modeOf m g :
  transition m g = default m (modeOf g).
Proof. destruct g; reflexivity. Qed.

(** X4.  Last gesture wins: after any sequence of labels the mode is the
    one the last label other than NONE stands for, and the starting mode
    when there is no such label. *)
Theorem feed_last_wins (m : AppMode)
    (labels : list GestureService.Gesture) :
  feed m labels = default m (last (omap modeOf labels)).
Proof.
  induction labels as [|g labels IH] using rev_ind; [reflexivity|].
  unfold feed in *. rewrite foldl_snoc, IH, transition_modeOf.
  rewrite omap_app. cbn [omap list_omap].
  destruct (modeOf g) as [m'|].
  - rewrite last_snoc. reflexivity.
  - rewrite app_nil_r. reflexivity.
Qed.

(** X5.  Detections without a hand change nothing the scene reads: after
    any run of them the handler has not thrown, and the mode, the hand
    rotation and the images are as before. *)
Theorem no_hand_run (results : list (option (list Hand))) (st : AppState)
    (Hnone : Forall noHand results) :
  exists st',
    handleAll results st = Normal st'
    /\ appMode st' = appMode st
    /\ handRotation (gestureState st') = handRotation (gestureState st)
    /\ userImages st' = userImages st
    /\ (results <> [] ->
        isHandDetected (gestureState st') = false
        /\ Types.gesture (gestureState st') = NONE).
Proof.
  revert st. induction Hnone as [|landmarks results Hl _ IH]; intros st.
  - exists st. do 4 (split; [reflexivity|]).
    intros Hne. destruct Hne. reflexivity.
  - cbn [handleAll].
    assert (E : handleGestureResult landmarks st
                = Normal {|
                    gestureState :=
                      {| isHandDetected := false; Types.gesture := NONE;
                         handRotation := handRotation (gestureState st) |};
                    appMode := appMode st;
                    userImages := userImages st |})
      by (destruct Hl as [-> | ->]; reflexivity).
    rewrite E. cbn [mbind Completion_bind].
    destruct (IH {| gestureState :=
                      {| isHandDetected := false; Types.gesture := NONE;
                         handRotation := handRotation (gestureState st) |};
                    appMode := appMode st;
                    userImages := userImages st |})
      as (st' & Hrun & Hm & Hr & Hi & Hg).
    exists st'. split; [exact Hrun|].
    split; [exact Hm|]. split; [exact Hr|]. split; [exact Hi|].
    intros _. destruct results as [|r results].
    + cbn in Hrun. injection Hrun as <-. split; reflexivity.
    + apply Hg. discriminate.
Qed.

Lemma no_hand_run_witness :
  exists st',
    handleAll [None; Some []] initialState = Normal st'
    /\ appMode st' = TREE.
Proof.
  assert (H : Forall noHand [None; Some ([] : list Hand)]).
  { apply Forall_cons. split; [left; reflexivity|].
    apply Forall_cons. split; [right; reflexivity | apply Forall_nil_2]. }
  destruct (no_hand_run [None; Some []] initialState H)
    as (st' & Hrun & Hm & _).
  exists st'. split; [exact Hrun | exact Hm].
Defined.

(** X6.  A detection whose first hand has its 21 landmarks is handled
    without a throw: the hand is marked detected, the label is not NONE,
    the mode is the one the label stands for, and the hand rotation lies
    in [-1, 1]. *)
Theorem full_hand_handled (lm : Hand) (rest : list Hand) (st : AppState)
    (Hfull : (21 <= length lm)%nat) :
  exists st',
    handleGestureResult (Some (lm :: rest)) st = Normal st'
    /\ isHandDetected (gestureState st') = true
    /\ Types.gesture (gestureState st') <> NONE
    /\ modeOf (Types.gesture (gestureState st')) = Some (appMode st')
    /\ -1 <= handRotation (gestureState st') <= 1
    /\ userImages st' = userImages st.
Proof.
  unfold handleGestureResult.
  rewrite (classifyGesture_full lm rest Hfull).
  cbn [mbind Completion_bind GestureService.gesture
       GestureService.rotation].
  eexists. split; [reflexivity|].
  cbn [gestureState isHandDetected Types.gesture handRotation appMode
       userImages].
  split; [reflexivity|].
  split; [destruct (Rlt_dec _ _); [discriminate|];
          destruct (3 <=? _)%nat; discriminate|].
  split; [destruct (Rlt_dec _ _); [reflexivity|];
          destruct (3 <=? _)%nat; reflexivity|].
  split; [apply clamp_range | reflexivity].
Qed.

Lemma full_hand_handled_witness :
  exists st',
    handleGestureResult (Some [GestureService.pinchedFist]) initialState
    = Normal st'
    /\ isHandDetected (gestureState st') = true.
Proof.
  assert (H : (21 <= length GestureService.pinchedFist)%nat)
    by (cbn; lia).
  destruct (full_hand_handled GestureService.pinchedFist [] initialState H)
    as (st' & Hrun & Hd & _).
  exists st'. split; [exact Hrun | exact Hd].
Defined.

End MachineMore.

(** ** The generator beyond the claims *)

Section GeneratorMore.
Import Types Constants TreeScene Cone.

Variable random : nat -> R.

(** X7.  Index correspondence: photo slot [i] carries the [i]-th image
    and the key photo-i, and decoration [i], found after the photo slots,
    carries no image and the key ornament-i. *)
Theorem generate_keys (N : nat) (userImages : list string) (k : nat) :
  let items := (generate random N userImages k).1 in
  (forall i url, userImages !! i = Some url ->
      exists o, items !! i = Some o
                /\ textureUrl o = Some url
                /\ id o = "photo-" +:+ pretty i)
  /\ (forall i, (i < N)%nat ->
      exists o, items !! (length userImages + i)%nat = Some o
                /\ textureUrl o = None
                /\ id o = "ornament-" +:+ pretty i).
Proof.
  intros items. split.
  - intros i url Hurl. eexists.
    split; [apply lookup_generate_photo, Hurl|]. split; reflexivity.
  - intros i Hi. eexists.
    split; [apply lookup_generate_gem, Hi|]. split; reflexivity.
Qed.

Lemma id_generated (N : nat) (userImages : list string) (k i : nat) o :
  (generate random N userImages k).1 !! i = Some o ->
  ((i < length userImages)%nat /\ id o = "photo-" +:+ pretty i)
  \/ ((length userImages <= i)%nat
      /\ id o = "ornament-" +:+ pretty (i - length userImages)%nat).
Proof.
  intros H.
  apply lookup_generate_inv in H
    as [(Hi & url & _ & ->) | (Hi & _ & ->)].
  - left. split; [exact Hi | reflexivity].
  - right. split; [exact Hi | reflexivity].
Qed.

(** X8.  The keys are unique: no two generated ornaments have the same
    [id]. *)
Theorem generate_ids_unique (N : nat) (userImages : list string)
    (k : nat) :
  NoDup (id <$> (generate random N userImages k).1).
Proof.
  apply NoDup_alt. intros i j key Hi Hj.
  rewrite list_lookup_fmap in Hi, Hj.
  destruct ((generate random N userImages k).1 !! i) as [oi|] eqn:Ei;
    [|discriminate].
  destruct ((generate random N userImages k).1 !! j) as [oj|] eqn:Ej;
    [|discriminate].
  cbn in Hi, Hj. injection Hi as Hi. injection Hj as Hj.
  apply id_generated in Ei as [[Hli Ei] | [Hli Ei]];
    apply id_generated in Ej as [[Hlj Ej] | [Hlj Ej]];
    rewrite Ei in Hi; rewrite Ej in Hj; subst key.
  - apply (inj (String.app "photo-")) in Hj.
    apply (inj pretty) in Hj. congruence.
  - cbn in Hj. discriminate.
  - cbn in Hj. discriminate.
  - apply (inj (String.app "ornament-")) in Hj.
    apply (inj pretty) in Hj. lia.
Qed.

(** *** Where the ornaments are put *)

Lemma cos2_sin2_scaled (theta r : R) :
  (cos theta * r) ^ 2 + (sin theta * r) ^ 2 = r ^ 2.
Proof.
  pose proof (sin2_cos2 theta) as H. unfold Rsqr in H.
  replace ((cos theta * r) ^ 2 + (sin theta * r) ^ 2)
    with ((sin theta * sin theta + cos theta * cos theta) * r ^ 2) by ring.
  rewrite H. ring.
Qed.

(** X9.  Every decoration lies inside the cone: its height is in the
    range of the tree, and its distance from the axis is at most the cone
    radius at its height and at least the square root of 0.7 of it.  This
    holds for draws in [0, 1). *)
Theorem decoration_in_cone
    (Hrange : forall k, 0 <= random k < 1)
    (N : nat) (userImages : list string) (k i : nat) (o : OrnamentData)
    (Hi : (i < N)%nat)
    (Ho : (generate random N userImages k).1
            !! (length userImages + i)%nat = Some o) :
  let p := positionTree o in
  - (TREE_HEIGHT / 2) <= Vector3.y p < TREE_HEIGHT / 2
  /\ 0 < coneRadius (Vector3.y p) <= TREE_RADIUS_BASE
  /\ 0.7 * coneRadius (Vector3.y p) ^ 2 <= axisDistance2 p
     < coneRadius (Vector3.y p) ^ 2.
Proof.
  rewrite lookup_generate_gem in Ho by exact Hi.
  apply (inj Some) in Ho. subst o. intros p.
  pose proof (gemY_range N i Hi) as Hy.
  set (u := random (k + 3 * length userImages + 10 * i)%nat).
  assert (Hu : 0 <= u < 1) by apply Hrange.
  assert (Hp : p = gemPosition N i u) by reflexivity.
  assert (HyE : Vector3.y p = gemY N i) by reflexivity.
  rewrite HyE.
  assert (HR : 0 < coneRadius (gemY N i) <= TREE_RADIUS_BASE).
  { unfold coneRadius, TREE_RADIUS_BASE, TREE_HEIGHT in *. lra. }
  split; [exact Hy|]. split; [exact HR|].
  assert (Hd : axisDistance2 p
               = coneRadius (gemY N i) ^ 2 * (u * 0.3 + 0.7)).
  { rewrite Hp. unfold axisDistance2, gemPosition.
    cbn [Vector3.x Vector3.z].
    rewrite cos2_sin2_scaled.
    change (radiusAtHeight N i) with (coneRadius (gemY N i)).
    rewrite Rpow_mult_distr.
    replace (sqrt (u * 0.3 + 0.7) ^ 2) with (u * 0.3 + 0.7)
      by (cbn [pow]; rewrite Rmult_1_r, sqrt_sqrt; [reflexivity | lra]).
    reflexivity. }
  rewrite Hd.
  assert (Hsq : 0 < coneRadius (gemY N i) ^ 2)
    by (apply pow_lt; apply HR).
  nra.
Qed.

(** X10.  Every photo slot sits outside the cone: its distance from the
    axis is 1.2 times the cone radius at its height, which is positive. *)
Theorem photo_outside_cone (N : nat) (userImages : list string)
    (k i : nat) (o : OrnamentData)
    (Hi : (i < length userImages)%nat)
    (Ho : (generate random N userImages k).1 !! i = Some o) :
  let p := positionTree o in
  0 < coneRadius (Vector3.y p)
  /\ axisDistance2 p = (1.2 * coneRadius (Vector3.y p)) ^ 2.
Proof.
  destruct (lookup_lt_is_Some_2 userImages i Hi) as [url Hurl].
  rewrite (lookup_generate_photo _ _ _ _ _ _ Hurl) in Ho.
  apply (inj Some) in Ho. subst o. intros p.
  pose proof (photo_band random (length userImages) i url (k + 3 * i) Hi)
    as Hband.
  split.
  - unfold p, coneRadius, TREE_HEIGHT, TREE_RADIUS_BASE in *. lra.
  - unfold p, axisDistance2, photoItem.
    cbn [positionTree Vector3.x Vector3.y Vector3.z].
    rewrite cos2_sin2_scaled. unfold coneRadius. f_equal. ring.
Qed.

(** X11.  The scattered targets stay in their boxes, for draws in
    [0, 1): a photo slot within 17.5, 10 and 5 of the origin along x, y
    and z, and any ornament within 25, 17.5 and 12.5. *)
Theorem scatter_bounds
    (Hrange : forall k, 0 <= random k < 1)
    (N : nat) (userImages : list string) (k i : nat) (o : OrnamentData)
    (Ho : (generate random N userImages k).1 !! i = Some o) :
  let p := positionScatter o in
  (-25 <= Vector3.x p < 25 /\ -17.5 <= Vector3.y p < 17.5
   /\ -12.5 <= Vector3.z p < 12.5)
  /\ (type o = PHOTO ->
      -17.5 <= Vector3.x p < 17.5 /\ -10 <= Vector3.y p < 10
      /\ -5 <= Vector3.z p < 5).
Proof.
  apply lookup_generate_inv in Ho
    as [(Hi & url & _ & ->) | (Hi & _ & ->)]; intros p.
  - unfold p, photoItem. cbn [positionScatter Vector3.x Vector3.y Vector3.z].
    pose proof (Hrange (k + 3 * i)%nat).
    pose proof (Hrange (k + 3 * i + 1)%nat).
    pose proof (Hrange (k + 3 * i + 2)%nat).
    split; [|intros _]; repeat split; lra.
  - unfold p, gemItem. cbn [positionScatter Vector3.x Vector3.y Vector3.z].
    set (k' := (k + 3 * length userImages
                + 10 * (i - length userImages))%nat).
    pose proof (Hrange (k' + 3)%nat).
    pose proof (Hrange (k' + 4)%nat).
    pose proof (Hrange (k' + 5)%nat).
    split; [repeat split; lra|].
    intros Hp. destruct (type_gemItem random N _ _ Hp).
Qed.

(** X12.  A decoration is a GEM or a PEARL, its scale lies in
    [0.1, 0.4) and each angle of its orientation in [0, PI), for draws
    in [0, 1). *)
Theorem decoration_ranges
    (Hrange : forall k, 0 <= random k < 1)
    (N : nat) (userImages : list string) (k i : nat) (o : OrnamentData)
    (Hi : (i < N)%nat)
    (Ho : (generate random N userImages k).1
            !! (length userImages + i)%nat = Some o) :
  (type o = GEM \/ type o = PEARL)
  /\ 0.1 <= scale o < 0.4
  /\ 0 <= Euler.x (rotation o) < PI
  /\ 0 <= Euler.y (rotation o) < PI
  /\ 0 <= Euler.z (rotation o) < PI.
Proof.
  rewrite lookup_generate_gem in Ho by exact Hi.
  apply (inj Some) in Ho. subst o.
  set (k' := (k + 3 * length userImages + 10 * i)%nat).
  unfold gemItem.
  cbn [type scale rotation Euler.x Euler.y Euler.z].
  pose proof (Hrange (k' + 6)%nat). pose proof (Hrange (k' + 7)%nat).
  pose proof (Hrange (k' + 8)%nat). pose proof (Hrange (k' + 9)%nat).
  pose proof PI_RGT_0.
  split; [destruct (Rgt_dec _ _); auto|].
  split; [lra|].
  repeat split; nra.
Qed.

(** X13.  The colour bands of [getLuxuryColor] are the ones its comments
    give: above 0.60 gold, then down to 0.45 champagne, to 0.35 black,
    to 0.15 red, and green from 0.15 down. *)
Theorem luxury_colour_bands (r : R) :
  (getLuxuryColor r = COLORS.GOLD_PURE <-> 0.60 < r)
  /\ (getLuxuryColor r = COLORS.GOLD_CHAMPAGNE <-> 0.45 < r <= 0.60)
  /\ (getLuxuryColor r = COLORS.MATTE_BLACK <-> 0.35 < r <= 0.45)
  /\ (getLuxuryColor r = COLORS.RICH_RED <-> 0.15 < r <= 0.35)
  /\ (getLuxuryColor r = COLORS.DEEP_GREEN <-> r <= 0.15).
Proof.
  unfold getLuxuryColor.
  repeat destruct (Rgt_dec _ _);
    repeat split; intros; try discriminate; try lra; try reflexivity.
Qed.

(** *** Which draws a generation uses *)

Lemma photoItem_ext (random' : nat -> R) len i url k :
  random k = random' k -> random (k + 1)%nat = random' (k + 1)%nat ->
  random (k + 2)%nat = random' (k + 2)%nat ->
  photoItem random len i url k = photoItem random' len i url k.
Proof. intros H0 H1 H2. unfold photoItem. rewrite H0, H1, H2. reflexivity. Qed.

Lemma gemItem_ext (random' : nat -> R) count i k :
  (forall d, (d < 10)%nat -> random (k + d)%nat = random' (k + d)%nat) ->
  gemItem random count i k = gemItem random' count i k.
Proof.
  intros H. unfold gemItem.
  pose proof (H 0%nat ltac:(lia)) as H0. rewrite Nat.add_0_r in H0.
  rewrite H0, !H by lia. reflexivity.
Qed.

(** X14.  A generation reads the draws numbered from its counter [k] up
    to [k + 3 P + 10 N] and no others, and leaves the counter at that
    number: two draw sequences that agree there give the same list. *)
Theorem generate_draws_used (random' : nat -> R) (N : nat)
    (userImages : list string) (k : nat)
    (Hsame : forall j, (k <= j < k + 3 * length userImages + 10 * N)%nat ->
                       random j = random' j) :
  generate random N userImages k = generate random' N userImages k
  /\ (generate random N userImages k).2
     = (k + 3 * length userImages + 10 * N)%nat.
Proof.
  split; [|apply generate_draws].
  rewrite !generate_spec. f_equal. f_equal.
  - unfold photoSlots. apply imap_ext. intros i url Hi.
    apply lookup_lt_Some in Hi.
    apply photoItem_ext; apply Hsame; lia.
  - unfold decorations. apply list_fmap_ext. intros j i Hi.
    apply lookup_seq in Hi as [-> Hlt]. cbn [Nat.add].
    apply gemItem_ext. intros d Hd. apply Hsame. lia.
Qed.

End GeneratorMore.

Section GeneratorMoreWitnesses.
Import Types Constants TreeScene Cone.

Lemma firstGem_lookup :
  (generate drawsHalf ORNAMENT_COUNT [] 0).1 !! (length ([] : list string) + 0)%nat
  = Some firstGem.
Proof.
  apply (lookup_generate_gem drawsHalf ORNAMENT_COUNT [] 0 0).
  unfold ORNAMENT_COUNT. lia.
Qed.

Lemma decoration_in_cone_witness :
  0 < coneRadius (Vector3.y (positionTree firstGem)) <= TREE_RADIUS_BASE.
Proof.
  assert (H0 : (0 < ORNAMENT_COUNT)%nat) by (unfold ORNAMENT_COUNT; lia).
  destruct (decoration_in_cone drawsHalf drawsHalf_range ORNAMENT_COUNT
              [] 0 0 firstGem H0 firstGem_lookup) as (_ & HR & _).
  exact HR.
Defined.

Lemma photo_outside_cone_witness :
  exists o,
    (generate drawsHalf ORNAMENT_COUNT ["blob:a"] 0).1 !! 0%nat = Some o
    /\ 0 < coneRadius (Vector3.y (positionTree o)).
Proof.
  assert (Hi : (0 < length ["blob:a"])%nat) by (cbn [length]; lia).
  eexists. split;
    [apply (lookup_generate_photo drawsHalf ORNAMENT_COUNT ["blob:a"]
              0 0 "blob:a" eq_refl)|].
  apply (photo_outside_cone drawsHalf ORNAMENT_COUNT ["blob:a"] 0 0 _ Hi
           (lookup_generate_photo drawsHalf ORNAMENT_COUNT ["blob:a"]
              0 0 "blob:a" eq_refl)).
Defined.

Lemma scatter_bounds_witness :
  -25 <= Vector3.x (positionScatter firstGem) < 25.
Proof.
  destruct (scatter_bounds drawsHalf drawsHalf_range ORNAMENT_COUNT
              [] 0 _ firstGem firstGem_lookup) as ((Hx & _) & _).
  exact Hx.
Defined.

Lemma decoration_ranges_witness : 0.1 <= scale firstGem < 0.4.
Proof.
  assert (H0 : (0 < ORNAMENT_COUNT)%nat) by (unfold ORNAMENT_COUNT; lia).
  destruct (decoration_ranges drawsHalf drawsHalf_range ORNAMENT_COUNT
              [] 0 0 firstGem H0 firstGem_lookup) as (_ & Hs & _).
  exact Hs.
Defined.

Lemma generate_draws_used_witness :
  (generate drawsHalf ORNAMENT_COUNT ["blob:a"] 0).2 = 3503%nat.
Proof.
  destruct (generate_draws_used drawsHalf drawsHalf ORNAMENT_COUNT
              ["blob:a"] 0 (fun j _ => eq_refl)) as [_ H].
  exact H.
Defined.

End GeneratorMoreWitnesses.

(** ** The animation driver beyond the claims *)

Section DriverMore.
Import Types Constants TreeScene.

Variable Matrix4 : Type.
Variable invert : Matrix4 -> Matrix4.
Variable applyMatrix4 : Vector3.t -> Matrix4 -> Vector3.t.
Variable lookAt : Group Matrix4 -> Object3D -> Vector3.t -> Euler.t.

Abbreviation animate := (TreeScene.animate Matrix4 invert applyMatrix4 lookAt).
Abbreviation forEachChild := (TreeScene.forEachChild Matrix4 invert applyMatrix4 lookAt).
Abbreviation useFrame := (TreeScene.useFrame Matrix4 invert applyMatrix4 lookAt).
Abbreviation frames := (TreeScene.frames Matrix4 invert applyMatrix4 lookAt).

Abbreviation turned := (@Yaw.turned Matrix4).

Lemma useFrame_exact handRotation camera t delta s group :
  groupRef s = Some group ->
  let g1 := turned handRotation delta s group in
  let r := forEachChild (mode s) (focusedIndex s) camera g1 t delta 0
                        (children g1) (ornaments s) in
  useFrame handRotation camera t delta s
  = {| groupRef := Some {| rotationY := rotationY g1;
                           matrixWorld := matrixWorld g1;
                           children := r.1 |};
       smoothRotation :=
         MathUtils.lerp (smoothRotation s) handRotation 0.1;
       focusedIndex := focusedIndex s;
       ornaments := r.2;
       mode := mode s;
       userImages := userImages s;
       draws := draws s |}.
Proof.
  intros Hg g1 r. unfold TreeScene.useFrame. rewrite Hg.
  fold (Yaw.turned handRotation delta s group). fold g1.
  unfold r. destruct (forEachChild _ _ _ _ _ _ _ _ _). reflexivity.
Qed.

Lemma turned_children handRotation delta s group :
  children (turned handRotation delta s group) = children group
  /\ matrixWorld (turned handRotation delta s group) = matrixWorld group.
Proof. unfold Yaw.turned. destruct (decide _); auto. Qed.

Lemma useFrame_no_group handRotation camera t delta s :
  groupRef s = None -> useFrame handRotation camera t delta s = s.
Proof. intros Hg. unfold TreeScene.useFrame. rewrite Hg. reflexivity. Qed.

(** A child after one frame. *)
Lemma useFrame_child handRotation camera t delta s i child :
  childAt s i = Some child ->
  exists group,
    childAt (useFrame handRotation camera t delta s) i
    = Some match ornaments s !! i with
           | Some data =>
               (animate (mode s) (focusedIndex s) camera group t delta i
                        child data).1
           | None => child
           end.
Proof.
  unfold childAt at 1.
  destruct (groupRef s) as [group|] eqn:Hg; [|discriminate].
  intros Hc. exists (turned handRotation delta s group).
  rewrite (useFrame_exact _ _ _ _ _ _ Hg). unfold childAt.
  cbn [groupRef children].
  rewrite (forEachChild_children Matrix4 invert applyMatrix4 lookAt
             _ _ _ _ _ _ _ 0 _ i child)
    by (rewrite (proj1 (turned_children _ _ _ _)); exact Hc).
  reflexivity.
Qed.

(** *** The smoothed hand rotation and the yaw of the group *)

Lemma lerp_between (a b : R) :
  -1 <= a <= 1 -> -1 <= b <= 1 -> -1 <= MathUtils.lerp a b 0.1 <= 1.
Proof. unfold MathUtils.lerp. lra. Qed.

Lemma useFrame_smooth handRotation camera t delta s :
  smoothRotation (useFrame handRotation camera t delta s)
  = match groupRef s with
    | Some _ => MathUtils.lerp (smoothRotation s) handRotation 0.1
    | None => smoothRotation s
    end.
Proof.
  destruct (groupRef s) as [group|] eqn:Hg.
  - rewrite (useFrame_exact _ _ _ _ _ _ Hg). reflexivity.
  - rewrite useFrame_no_group by exact Hg. reflexivity.
Qed.

Lemma useFrame_group_some handRotation camera t delta s :
  is_Some (groupRef s) ->
  is_Some (groupRef (useFrame handRotation camera t delta s)).
Proof.
  intros [group Hg]. rewrite (useFrame_exact _ _ _ _ _ _ Hg). eauto.
Qed.

(** X15.  The smoothed rotation never leaves [-1, 1]: if it starts there
    and every frame's hand rotation lies there, it is there after any
    number of frames. *)
Theorem smoothRotation_bounded (delta : R) (ticks : list Tick)
    (s : Scene Matrix4)
    (Hstart : -1 <= smoothRotation s <= 1)
    (Hticks : Forall (fun k => -1 <= tickRotation k <= 1) ticks) :
  -1 <= smoothRotation (frames delta ticks s) <= 1.
Proof.
  revert s Hstart.
  induction Hticks as [|k ticks Hk _ IH]; intros s Hstart; [exact Hstart|].
  unfold TreeScene.frames in *. cbn [foldl]. apply IH.
  rewrite useFrame_smooth.
  destruct (groupRef s); [apply lerp_between; assumption | exact Hstart].
Qed.

(** X16.  With the hand held at one rotation, the smoothed rotation
    closes a tenth of the remaining difference on every frame: after n
    frames the difference is 0.9^n times the first one. *)
Theorem smoothRotation_converges (delta h : R) (ticks : list Tick)
    (s : Scene Matrix4)
    (Hgroup : is_Some (groupRef s))
    (Hheld : Forall (fun k => tickRotation k = h) ticks) :
  smoothRotation (frames delta ticks s) - h
  = 0.9 ^ length ticks * (smoothRotation s - h).
Proof.
  revert s Hgroup.
  induction Hheld as [|k ticks Hk _ IH]; intros s Hgroup.
  - cbn. lra.
  - unfold TreeScene.frames in *. cbn [foldl length pow].
    rewrite IH by (apply useFrame_group_some, Hgroup).
    rewrite useFrame_smooth. destruct Hgroup as [group ->].
    rewrite Hk. unfold MathUtils.lerp. lra.
Qed.

(** X17.  The group's yaw stands still in FOCUS mode.  In the other modes
    one frame of [delta >= 0] seconds turns it by
    [(0.2 + 1.5 * smoothed) * delta], which lies between [-1.3 * delta]
    and [1.7 * delta] when the rotations lie in [-1, 1]. *)
Theorem yaw_step (handRotation : R) (camera : Camera) (t delta : R)
    (s : Scene Matrix4) (group : Group Matrix4)
    (Hgroup : groupRef s = Some group)
    (Hsmooth : -1 <= smoothRotation s <= 1)
    (Hhand : -1 <= handRotation <= 1)
    (Hdelta : 0 <= delta) :
  exists group',
    groupRef (useFrame handRotation camera t delta s) = Some group'
    /\ matrixWorld group' = matrixWorld group
    /\ (mode s = FOCUS -> rotationY group' = rotationY group)
    /\ (mode s <> FOCUS ->
        rotationY group' - rotationY group
        = (0.2 + smoothRotation
                   (useFrame handRotation camera t delta s) * 1.5)
          * delta)
    /\ -1.3 * delta <= rotationY group' - rotationY group <= 1.7 * delta.
Proof.
  rewrite (useFrame_exact _ _ _ _ _ _ Hgroup).
  eexists. split; [reflexivity|].
  cbn [rotationY matrixWorld smoothRotation].
  pose proof (lerp_between _ _ Hsmooth Hhand) as Hl.
  unfold Yaw.turned. destruct (decide (mode s <> FOCUS)) as [Hm|Hm];
    cbn [rotationY matrixWorld].
  - split; [reflexivity|]. split; [intros; contradiction|].
    split; [intros _; lra|]. nra.
  - split; [reflexivity|]. split; [reflexivity|].
    split; [intros; contradiction|]. lra.
Qed.

(** *** The children *)

Lemma animate_rotation_gem mode fi camera group t delta i child data :
  type data <> PHOTO ->
  rotation3 (animate mode fi camera group t delta i child data).1
  = Euler.mk (Euler.x (rotation3 child) + delta * 0.2)
             (Euler.y (rotation3 child) + delta * 0.3)
             (Euler.z (rotation3 child)).
Proof.
  intros Ht. unfold TreeScene.animate, TreeScene.aim, isFocusedPhoto.
  rewrite (bool_decide_eq_false_2 (type data = PHOTO)) by exact Ht.
  cbn [andb fst].
  destruct (decide (type data <> PHOTO)); [|contradiction].
  destruct mode; reflexivity.
Qed.

Lemma animate_rotation_photo mode fi camera group t delta i child data :
  type data = PHOTO ->
  mode <> FOCUS \/ fi <> Some (Z.of_nat i) ->
  rotation3 (animate mode fi camera group t delta i child data).1
  = rotation3 child.
Proof.
  intros Ht Hnot. unfold TreeScene.animate, TreeScene.aim, isFocusedPhoto.
  cbn [fst].
  destruct (decide (type data <> PHOTO)); [contradiction|].
  destruct mode; try reflexivity.
  destruct Hnot as [Hm|Hf]; [contradiction|].
  rewrite (bool_decide_eq_false_2 (fi = Some (Z.of_nat i))) by exact Hf.
  rewrite andb_false_r. reflexivity.
Qed.

Lemma useFrame_data_type handRotation camera t delta s i data :
  ornaments s !! i = Some data ->
  exists data',
    ornaments (useFrame handRotation camera t delta s) !! i = Some data'
    /\ type data' = type data.
Proof.
  intros Hd. destruct (groupRef s) as [group|] eqn:Hg.
  - rewrite (useFrame_ornaments _ _ _ _ _ _ _ _ _ _ _ Hg), Hd.
    case_bool_decide; cbn; eexists; split; try reflexivity.
    apply type_stored.
  - rewrite useFrame_no_group by exact Hg. eauto.
Qed.

(** X18.  Every ornament that is not a photo turns at 0.2 and 0.3 radians
    per second about x and y, in every mode: after n frames of [delta]
    seconds its child's angles have grown by [n * delta * 0.2] and
    [n * delta * 0.3], and the third angle is as it was. *)
Theorem sparkle_rotation (delta : R) (ticks : list Tick) :
  forall (s : Scene Matrix4) (i : nat) (child : Object3D)
         (data : OrnamentData),
    childAt s i = Some child ->
    ornaments s !! i = Some data ->
    type data <> PHOTO ->
    exists child',
      childAt (frames delta ticks s) i = Some child'
      /\ Euler.x (rotation3 child')
         = Euler.x (rotation3 child) + INR (length ticks) * delta * 0.2
      /\ Euler.y (rotation3 child')
         = Euler.y (rotation3 child) + INR (length ticks) * delta * 0.3
      /\ Euler.z (rotation3 child') = Euler.z (rotation3 child).
Proof.
  induction ticks as [|k ticks IH]; intros s i child data Hc Hd Ht.
  - exists child. cbn. split; [exact Hc|]. repeat split; lra.
  - destruct (useFrame_child (tickRotation k) (tickCamera k) (tickTime k)
                delta s i child Hc) as (group & Hc').
    rewrite Hd in Hc'.
    destruct (useFrame_data_type (tickRotation k) (tickCamera k)
                (tickTime k) delta s i data Hd) as (data' & Hd' & Ht').
    destruct (IH _ i _ data' Hc' Hd' ltac:(rewrite Ht'; exact Ht))
      as (child' & Hc'' & Hx & Hy & Hz).
    exists child'. unfold TreeScene.frames in *. cbn [foldl].
    split; [exact Hc''|].
    rewrite animate_rotation_gem in Hx, Hy, Hz by exact Ht.
    cbn [Euler.x Euler.y Euler.z] in Hx, Hy, Hz.
    rewrite Hx, Hy, Hz.
    change (length (k :: ticks)) with (S (length ticks)).
    rewrite S_INR. repeat split; lra.
Qed.

(** X19.  A photo never receives that rotation: over any number of
    frames its child's orientation is untouched, unless the mode is FOCUS
    and the photo is the focused one. *)
Theorem photo_keeps_orientation (delta : R) (ticks : list Tick) :
  forall (s : Scene Matrix4) (i : nat) (child : Object3D)
         (data : OrnamentData),
    childAt s i = Some child ->
    ornaments s !! i = Some data ->
    type data = PHOTO ->
    mode s <> FOCUS \/ focusedIndex s <> Some (Z.of_nat i) ->
    exists child',
      childAt (frames delta ticks s) i = Some child'
      /\ rotation3 child' = rotation3 child.
Proof.
  induction ticks as [|k ticks IH]; intros s i child data Hc Hd Ht Hnot.
  - exists child. split; [exact Hc | reflexivity].
  - destruct (useFrame_child (tickRotation k) (tickCamera k) (tickTime k)
                delta s i child Hc) as (group & Hc').
    rewrite Hd in Hc'.
    destruct (useFrame_data_type (tickRotation k) (tickCamera k)
                (tickTime k) delta s i data Hd) as (data' & Hd' & Ht').
    destruct (useFrame_fields Matrix4 invert applyMatrix4 lookAt
                (tickRotation k) (tickCamera k) (tickTime k) delta s)
      as (Hm & Hf & _).
    destruct (IH _ i _ data' Hc' Hd' ltac:(rewrite Ht'; exact Ht)
                ltac:(rewrite Hm, Hf; exact Hnot))
      as (child' & Hc'' & Hr).
    exists child'. unfold TreeScene.frames in *. cbn [foldl].
    split; [exact Hc''|].
    rewrite Hr. apply animate_rotation_photo; assumption.
Qed.

(** *** What frames keep *)

(** X20.  Frames neither add nor remove anything: the numbers of
    children and of ornaments stay the same, and a child that has no
    ornament record is left exactly as it is. *)
Theorem frames_keep_counts (delta : R) (ticks : list Tick) :
  forall (s : Scene Matrix4),
    length (ornaments (frames delta ticks s)) = length (ornaments s)
    /\ (forall group, groupRef s = Some group ->
          exists group',
            groupRef (frames delta ticks s) = Some group'
            /\ length (children group') = length (children group))
    /\ (forall i child, childAt s i = Some child ->
          ornaments s !! i = None ->
          childAt (frames delta ticks s) i = Some child).
Proof.
  induction ticks as [|k ticks IH]; intros s.
  - cbn. split; [reflexivity|]. split; [eauto | auto].
  - unfold TreeScene.frames in *. cbn [foldl].
    destruct (IH (useFrame (tickRotation k) (tickCamera k) (tickTime k)
                           delta s)) as (Hlen & Hgrp & Hch).
    split; [rewrite Hlen; apply useFrame_length|]. split.
    + intros group Hg.
      pose proof (useFrame_exact (tickRotation k) (tickCamera k)
                    (tickTime k) delta s group Hg) as E.
      cbv zeta in E.
      destruct (Hgrp _ ltac:(rewrite E; reflexivity)) as (g' & Hg' & Hl).
      exists g'. split; [exact Hg'|]. rewrite Hl. cbn [children].
      rewrite forEachChild_length.
      apply (f_equal (@length _)), turned_children.
    + intros i child Hc Hnone.
      destruct (useFrame_child (tickRotation k) (tickCamera k)
                  (tickTime k) delta s i child Hc) as (group & Hc').
      rewrite Hnone in Hc'.
      apply Hch; [exact Hc'|].
      apply lookup_ge_None. rewrite useFrame_length.
      apply lookup_ge_None, Hnone.
Qed.

Lemma float_fields t data :
  type (float t data) = type data
  /\ positionTree (float t data) = positionTree data
  /\ scale (float t data) = scale data
  /\ Vector3.x (positionScatter (float t data))
     = Vector3.x (positionScatter data)
  /\ Vector3.z (positionScatter (float t data))
     = Vector3.z (positionScatter data)
  /\ Rabs (Vector3.y (positionScatter (float t data))
           - Vector3.y (positionScatter data)) <= 0.05.
Proof.
  unfold float. cbn. repeat split; try reflexivity.
  pose proof (SIN_bound (t * 0.5 + Vector3.x (positionScatter data)))
    as [Hlo Hhi].
  apply Rabs_le. lra.
Qed.

(** X21.  What frames can do to a stored ornament is bounded: after n
    frames its type, tree position, scale and the x and z of its
    scattered position are as generated, and the height of its scattered
    position is within [0.05 * n] of the generated one; outside SCATTER
    mode it has not moved at all. *)
Theorem stored_drift_bounded (delta : R) (ticks : list Tick) :
  forall (s : Scene Matrix4) (j : nat) (data' : OrnamentData),
    ornaments (frames delta ticks s) !! j = Some data' ->
    exists data,
      ornaments s !! j = Some data
      /\ type data' = type data
      /\ positionTree data' = positionTree data
      /\ scale data' = scale data
      /\ Vector3.x (positionScatter data')
         = Vector3.x (positionScatter data)
      /\ Vector3.z (positionScatter data')
         = Vector3.z (positionScatter data)
      /\ Rabs (Vector3.y (positionScatter data')
               - Vector3.y (positionScatter data))
         <= 0.05 * INR (length ticks)
      /\ (mode s <> SCATTER -> data' = data).
Proof.
  induction ticks as [|k ticks IH]; intros s j data' Hd'.
  - exists data'. split; [exact Hd'|]. repeat split; try reflexivity.
    cbn. rewrite Rminus_diag, Rabs_R0. lra.
  - unfold TreeScene.frames in *. cbn [foldl] in Hd'.
    destruct (IH _ j data' Hd')
      as (mid & Hmid & Ht & Hp & Hs & Hx & Hz & Hy & Hsame).
    rewrite (proj1 (useFrame_fields Matrix4 invert applyMatrix4 lookAt
                      _ _ _ _ s)) in Hsame.
    assert (Hstep : exists data,
               ornaments s !! j = Some data
               /\ (mid = data \/ (mode s = SCATTER
                                  /\ mid = float (tickTime k) data))).
    { destruct (groupRef s) as [group|] eqn:Hg.
      - rewrite (useFrame_ornaments _ _ _ _ _ _ _ _ _ _ _ Hg) in Hmid.
        case_bool_decide; [|eauto].
        destruct (ornaments s !! j) as [data|]; [|discriminate].
        cbn in Hmid. injection Hmid as <-. exists data.
        split; [reflexivity|]. unfold stored.
        destruct (decide (mode s = SCATTER)); auto.
      - rewrite useFrame_no_group in Hmid by exact Hg. eauto. }
    destruct Hstep as (data & Hd & Hcase). exists data.
    split; [exact Hd|].
    change (length (k :: ticks)) with (S (length ticks)). rewrite S_INR.
    destruct Hcase as [-> | [Hm ->]].
    + repeat split; try assumption. lra.
    + destruct (float_fields (tickTime k) data)
        as (Ft & Fp & Fs & Fx & Fz & Fy).
      split; [congruence|]. split; [congruence|]. split; [congruence|].
      split; [congruence|]. split; [congruence|].
      split; [|intros Hn; contradiction].
      replace (Vector3.y (positionScatter data')
               - Vector3.y (positionScatter data))
        with ((Vector3.y (positionScatter data')
               - Vector3.y (positionScatter
                              (float (tickTime k) data)))
              + (Vector3.y (positionScatter (float (tickTime k) data))
                 - Vector3.y (positionScatter data))) by ring.
      eapply Rle_trans; [apply Rabs_triang|]. lra.
Qed.

End DriverMore.

(** ** Renders and the focus beyond the claims *)

Section RenderMore.
Import Types Constants TreeScene.

Variable random : nat -> R.
Hypothesis random_range : forall k, 0 <= random k < 1.

Variable Matrix4 : Type.
Variable invert : Matrix4 -> Matrix4.
Variable applyMatrix4 : Vector3.t -> Matrix4 -> Vector3.t.
Variable lookAt : Group Matrix4 -> Object3D -> Vector3.t -> Euler.t.

Abbreviation reachable :=
  (TreeScene.reachable random Matrix4 invert applyMatrix4 lookAt).
Abbreviation mount := (@TreeScene.mount random Matrix4).
Abbreviation render := (@TreeScene.render random Matrix4).

Abbreviation focusOk := (@Focus.focusOk Matrix4).

Lemma mount_focusOk mode userImages k : focusOk (mount mode userImages k).
Proof.
  unfold Focus.focusOk. rewrite mount_exact.
  cbn [focusedIndex TreeScene.userImages].
  destruct (ornamentsOf_shape random userImages k) as [Hlen Hty].
  rewrite (focusEffect_spec random random_range mode userImages _
             (Some 0%Z) _ Hlen Hty).
  destruct (bool_decide (mode = FOCUS)
            && bool_decide (0 < length userImages)%nat) eqn:Hsel.
  - apply andb_prop in Hsel as [_ HP]. apply bool_decide_eq_true in HP.
    pose proof (floor_draw (random (ornamentsOf random userImages k).2)
                  (length userImages) (random_range _) HP) as [Hlo Hhi].
    eexists. split; [reflexivity|]. split; [exact Hlo|].
    split; [intros _; exact Hhi | lia].
  - exists 0%Z. split; [reflexivity|]. split; [lia|].
    split; [lia | reflexivity].
Qed.

Lemma render_focusOk mode' upload (s : Scene Matrix4) :
  shaped s -> focusOk s -> focusOk (render mode' upload s).
Proof.
  intros Hs (j & Hj & H0 & Hlt & Hz).
  destruct (render_focus random random_range Matrix4 mode' upload s Hs)
    as (_ & _ & Himgs & _ & _ & k & _ & Hfi & _).
  unfold Focus.focusOk. rewrite Himgs, Hfi.
  destruct (selects mode' upload s) eqn:Hsel.
  - apply selects_true in Hsel as (_ & _ & HP).
    pose proof (floor_draw (random k) _ (random_range k) HP) as [Hlo Hhi].
    eexists. split; [reflexivity|]. split; [exact Hlo|].
    split; [intros _; exact Hhi | lia].
  - exists j. split; [exact Hj|]. split; [exact H0|].
    assert (Hgrow : (length (userImages s)
                     <= length (nextImages upload s))%nat).
    { unfold nextImages. destruct upload; [rewrite length_app|]; lia. }
    split.
    + intros HP. destruct (userImages s) as [|u us] eqn:Hu.
      * rewrite Hz by reflexivity. lia.
      * specialize (Hlt ltac:(cbn; lia)). lia.
    + intros Hnone. apply Hz. lia.
Qed.

(** X22.  In every state the component can reach, the focus is the index
    of a photo whenever a photo exists, and 0 when none does: in FOCUS
    mode with photos exactly one ornament passes the focused-photo test,
    and it is a photo. *)
Theorem focus_designates_photo (s : Scene Matrix4) (Hs : reachable s) :
  exists j,
    focusedIndex s = Some j
    /\ (length (userImages s) = 0%nat -> j = 0%Z)
    /\ ((0 < length (userImages s))%nat ->
        (0 <= j < Z.of_nat (length (userImages s)))%Z
        /\ exists o,
            ornaments s !! Z.to_nat j = Some o
            /\ type o = PHOTO
            /\ isFocusedPhoto o (Z.to_nat j) (focusedIndex s) = true
            /\ forall i o', isFocusedPhoto o' i (focusedIndex s) = true ->
                            i = Z.to_nat j).
Proof.
  assert (Hok : focusOk s).
  { induction Hs as [mode0 imgs k | mode' upload s Hs IH
                    | h c t d s Hs IH | group s Hs IH].
    - apply mount_focusOk.
    - apply render_focusOk;
        [apply (reachable_shaped random random_range Matrix4 invert
                  applyMatrix4 lookAt), Hs | exact IH].
    - unfold Focus.focusOk.
      destruct (useFrame_fields Matrix4 invert applyMatrix4 lookAt
                  h c t d s) as (_ & Hf & Hi & _).
      rewrite Hf, Hi. exact IH.
    - exact IH. }
  pose proof (reachable_shaped random random_range Matrix4 invert
                applyMatrix4 lookAt s Hs) as [Hlen Hty].
  destruct Hok as (j & Hj & H0 & Hlt & Hz).
  exists j. split; [exact Hj|]. split; [exact Hz|].
  intros HP. specialize (Hlt HP). split; [lia|].
  destruct (lookup_lt_is_Some_2 (ornaments s) (Z.to_nat j)) as [o Ho];
    [lia|].
  assert (Hphoto : type o = PHOTO) by (apply (Hty _ _ Ho); lia).
  exists o. split; [exact Ho|]. split; [exact Hphoto|].
  rewrite Hj. unfold isFocusedPhoto. split.
  - rewrite bool_decide_eq_true_2 by exact Hphoto.
    rewrite bool_decide_eq_true_2 by (f_equal; lia). reflexivity.
  - intros i o' Hfoc. apply andb_prop in Hfoc as [_ Hfoc].
    apply bool_decide_eq_true in Hfoc. injection Hfoc as ->. lia.
Qed.

(** X23.  A render without an upload keeps the memoised ornaments,
    whatever the frames stored in them.  A render after an upload builds
    every ornament anew for the longer image list, from draws numbered
    from the current count on; decoration [i] in particular is rebuilt
    from ten fresh draws.  The draw count never goes down. *)
Theorem render_regenerates (mode' : AppMode) (s : Scene Matrix4) :
  ornaments (render mode' None s) = ornaments s
  /\ (draws s <= draws (render mode' None s))%nat
  /\ forall files,
      let P' := length (userImages s ++ files) in
      ornaments (render mode' (Some files) s)
      = (generate random ORNAMENT_COUNT (userImages s ++ files)
                  (draws s)).1
      /\ (draws s + 3 * P' + 10 * ORNAMENT_COUNT
          <= draws (render mode' (Some files) s))%nat
      /\ forall i, (i < ORNAMENT_COUNT)%nat ->
           ornaments (render mode' (Some files) s) !! (P' + i)%nat
           = Some (gemItem random ORNAMENT_COUNT i
                           (draws s + 3 * P' + 10 * i)).
Proof.
  assert (Heff : forall m imgs orn fi k,
             (k <= (focusEffect random m imgs orn fi k).2)%nat).
  { intros m imgs orn fi k. unfold focusEffect.
    destruct (_ && _); [|cbn; lia].
    destruct (bool_decide _); cbn; lia. }
  split; [|split].
  - unfold TreeScene.render.
    destruct (_ && _); [reflexivity|].
    destruct (focusEffect _ _ _ _ _ _). reflexivity.
  - unfold TreeScene.render.
    destruct (_ && _); [cbn; lia|].
    specialize (Heff mode' (userImages s) (ornaments s) (focusedIndex s)
                     (draws s)).
    destruct (focusEffect _ _ _ _ _ _). exact Heff.
  - intros files P'.
    assert (E : ornaments (render mode' (Some files) s)
                = (generate random ORNAMENT_COUNT (userImages s ++ files)
                            (draws s)).1
                /\ (draws s + 3 * P' + 10 * ORNAMENT_COUNT
                    <= draws (render mode' (Some files) s))%nat).
    { unfold TreeScene.render, ornamentsOf.
      pose proof (generate_draws random ORNAMENT_COUNT
                    (userImages s ++ files) (draws s)) as Hd.
      destruct (generate random ORNAMENT_COUNT (userImages s ++ files)
                         (draws s)) as [orn k] eqn:Hgen.
      cbn [fst snd] in Hd |- *.
      destruct (_ && _);
        [cbn [ornaments draws]; split; [reflexivity | unfold P'; lia]|].
      specialize (Heff mode' (userImages s ++ files) orn (focusedIndex s)
                       k).
      destruct (focusEffect _ _ _ _ _ _).
      cbn [ornaments draws snd] in Heff |- *.
      split; [reflexivity | unfold P'; lia]. }
    destruct E as [E1 E2]. split; [exact E1|]. split; [exact E2|].
    intros i Hi. rewrite E1. apply lookup_generate_gem, Hi.
Qed.

End RenderMore.

(** ** The detection loop *)

Section LoopFacts.
Import GestureLoop.

Variable Result : Type.
Variable detectForVideo : R -> Completion Result.
Variable onResult : Result -> Completion unit.

Abbreviation detect := (GestureLoop.detect Result detectForVideo onResult).
Abbreviation start := (GestureLoop.start Result detectForVideo onResult).
Abbreviation stop := (GestureLoop.stop Result).
Abbreviation animationFrame :=
  (GestureLoop.animationFrame Result detectForVideo onResult).
Abbreviation run := (GestureLoop.run Result detectForVideo onResult).
Abbreviation step := (GestureLoop.step Result detectForVideo onResult).
Abbreviation throws := (GestureLoop.throws Result detectForVideo onResult).
Abbreviation returning :=
  (GestureLoop.returning Result detectForVideo onResult).

Ltac run_detect :=
  unfold GestureLoop.detect, GestureLoop.throws;
  cbn [currentTime service results callbacks nextHandle handLandmarker
       video lastVideoTime requestRef].

(** What [onResult] receives in one call of [detect]. *)
Lemma detect_results (b : Browser Result) :
  results (detect b).1
  = results b
    ++ (if fresh b
        then match detectForVideo (currentTime b) with
             | Normal found => [found]
             | Throw _ => []
             end
        else []).
Proof.
  run_detect.
  destruct (fresh b); [|cbn; rewrite app_nil_r; reflexivity].
  destruct (detectForVideo (currentTime b)) as [found|e];
    [|cbn; rewrite app_nil_r; reflexivity].
  destruct (onResult found); reflexivity.
Qed.

(** The fields [detect] never writes. *)
Lemma detect_keeps (b : Browser Result) :
  handLandmarker (service (detect b).1) = handLandmarker (service b)
  /\ video (service (detect b).1) = video (service b)
  /\ currentTime (detect b).1 = currentTime b.
Proof.
  run_detect.
  destruct (fresh b); [|cbn; auto].
  destruct (detectForVideo (currentTime b)) as [found|e]; [|cbn; auto].
  destruct (onResult found); cbn; auto.
Qed.

Lemma detect_lastVideoTime (b : Browser Result) :
  lastVideoTime (service (detect b).1)
  = if fresh b then currentTime b else lastVideoTime (service b).
Proof.
  run_detect.
  destruct (fresh b); [|reflexivity].
  destruct (detectForVideo (currentTime b)) as [found|e]; [|reflexivity].
  destruct (onResult found); reflexivity.
Qed.

(** The queue after [detect]: one more callback, unless it threw. *)
Lemma detect_queue (b : Browser Result) :
  callbacks (detect b).1
  = (if throws b then callbacks b else callbacks b ++ [nextHandle b])
  /\ requestRef (service (detect b).1)
     = (if throws b then requestRef (service b) else Some (nextHandle b))
  /\ nextHandle (detect b).1
     = (if throws b then nextHandle b else S (nextHandle b))
  /\ (throws b = false -> (detect b).2 = Normal tt)
  /\ (throws b = true -> exists e, (detect b).2 = Throw e).
Proof.
  run_detect.
  destruct (fresh b); cbn [andb]; [|cbn; repeat split; discriminate].
  destruct (detectForVideo (currentTime b)) as [found|e];
    [|cbn; repeat split; eauto; discriminate].
  destruct (onResult found) as [[]|e]; cbn; repeat split; eauto;
    discriminate.
Qed.

Lemma detect_settled b : fresh (detect b).1 = false.
Proof.
  unfold fresh at 1.
  destruct (detect_keeps b) as (-> & -> & ->).
  rewrite detect_lastVideoTime. unfold fresh.
  destruct (handLandmarker (service b)); [|reflexivity].
  destruct (video (service b)); [|reflexivity].
  cbn [andb].
  destruct (Req_dec_T (currentTime b) (lastVideoTime (service b)))
    as [e|n].
  - destruct (Req_dec_T (currentTime b) (lastVideoTime (service b)));
      [reflexivity | contradiction].
  - destruct (Req_dec_T (currentTime b) (currentTime b)) as [_|n'];
      [reflexivity | destruct n'; reflexivity].
Qed.

Lemma throws_fresh b : fresh b = false -> throws b = false.
Proof. intros H. unfold GestureLoop.throws. rewrite H. reflexivity. Qed.

Lemma detect_quiet b :
  fresh b = false ->
  results (detect b).1 = results b /\ fresh (detect b).1 = false.
Proof.
  intros H. split; [|apply detect_settled].
  rewrite detect_results, H. apply app_nil_r.
Qed.

(** The callbacks of one frame, run on a state where nothing is left to
    classify. *)
Lemma detects_quiet (handles : list nat) :
  forall b, fresh b = false ->
    results (foldl (fun b _ => (detect b).1) b handles) = results b
    /\ fresh (foldl (fun b _ => (detect b).1) b handles) = false.
Proof.
  induction handles as [|h handles IH]; intros b Hq; [auto|].
  cbn [foldl]. destruct (detect_quiet b Hq) as [Hr Hq'].
  destruct (IH _ Hq') as [Hr' Hq'']. split; [congruence | exact Hq''].
Qed.

Lemma animationFrame_quiet (b : Browser Result) :
  fresh b = false ->
  results (animationFrame b) = results b
  /\ fresh (animationFrame b) = false.
Proof.
  intros Hq. unfold GestureLoop.animationFrame.
  exact (detects_quiet (callbacks b)
           {| service := service b; currentTime := currentTime b;
              callbacks := []; nextHandle := nextHandle b;
              results := results b |} Hq).
Qed.

Lemma animationFrame_results b :
  (length (results (animationFrame b)) <= S (length (results b)))%nat
  /\ (callbacks b <> [] -> fresh (animationFrame b) = false)
  /\ (callbacks b = [] ->
      animationFrame b = b)
  /\ handLandmarker (service (animationFrame b))
     = handLandmarker (service b)
  /\ video (service (animationFrame b)) = video (service b)
  /\ currentTime (animationFrame b) = currentTime b.
Proof.
  unfold GestureLoop.animationFrame.
  assert (Hkeep : forall (handles : list nat) (b0 : Browser Result),
             handLandmarker
               (service (foldl (fun b _ => (detect b).1) b0 handles))
             = handLandmarker (service b0)
             /\ video
                  (service (foldl (fun b _ => (detect b).1) b0 handles))
                = video (service b0)
             /\ currentTime (foldl (fun b _ => (detect b).1) b0 handles)
                = currentTime b0).
  { induction handles as [|h handles IH]; intros b0; [auto|].
    cbn [foldl]. destruct (IH (detect b0).1) as (H1 & H2 & H3).
    destruct (detect_keeps b0) as (K1 & K2 & K3).
    rewrite H1, H2, H3, K1, K2, K3. auto. }
  destruct (callbacks b) as [|h handles] eqn:Hc.
  - cbn [foldl]. split; [cbn; lia|]. split; [intros H; destruct H; reflexivity|].
    split; [intros _; destruct b; cbn in Hc; subst; reflexivity|].
    auto.
  - cbn [foldl].
    match goal with
    | |- context [GestureLoop.detect _ _ _ ?b0] => set (b1 := b0)
    end.
    destruct (detects_quiet handles (detect b1).1 (detect_settled b1))
      as [Hr Hq].
    split.
    { rewrite Hr, detect_results, length_app.
      destruct (fresh b1); [|cbn; lia].
      destruct (detectForVideo (currentTime b1)); cbn; lia. }
    split; [intros _; exact Hq|].
    split; [discriminate|].
    destruct (Hkeep handles (detect b1).1) as (H1 & H2 & H3).
    destruct (detect_keeps b1) as (K1 & K2 & K3).
    rewrite H1, H2, H3, K1, K2, K3. auto.
Qed.

(** X24.  A video frame is classified at most once.  One animation frame
    passes at most one result to [onResult], and while the video stays on
    the same frame, the animation frames that follow pass none. *)
Theorem frame_classified_once (b : Browser Result) (n : nat) :
  (length (results (animationFrame b)) <= S (length (results b)))%nat
  /\ results (Nat.iter n animationFrame (animationFrame b))
     = results (animationFrame b).
Proof.
  split; [apply animationFrame_results|].
  destruct (callbacks b) as [|h handles] eqn:Hc.
  - destruct (animationFrame_results b) as (_ & _ & Hid & _).
    rewrite (Hid Hc).
    assert (Hfix : forall m, Nat.iter m animationFrame b = b).
    { induction m as [|m IHm]; [reflexivity|].
      rewrite Nat.iter_succ, IHm. exact (Hid Hc). }
    rewrite Hfix. reflexivity.
  - assert (Hq : fresh (animationFrame b) = false).
    { apply animationFrame_results. rewrite Hc. discriminate. }
    revert Hq. generalize (animationFrame b) as b'.
    induction n as [|n IH]; intros b' Hq; [reflexivity|].
    rewrite Nat.iter_succ_r.
    destruct (animationFrame_quiet b' Hq) as [Hr Hq'].
    rewrite (IH _ Hq'). exact Hr.
Qed.

(** *** Before the model is loaded, before the video is set *)

Lemma step_no_landmarker b e :
  handLandmarker (service b) = false -> e <> Initialized ->
  handLandmarker (service (step b e)) = false
  /\ results (step b e) = results b.
Proof.
  intros Hh He.
  assert (Hfresh : forall b0 : Browser Result,
             handLandmarker (service b0) = false -> fresh b0 = false).
  { intros b0 H0. unfold fresh. rewrite H0. reflexivity. }
  destruct e; cbn [GestureLoop.step].
  - destruct (animationFrame_results b) as (_ & _ & Hid & Hl & _).
    split; [rewrite Hl; exact Hh|].
    apply animationFrame_quiet, Hfresh, Hh.
  - split; [exact Hh | reflexivity].
  - contradiction.
  - unfold GestureLoop.start.
    match goal with
    | |- context [GestureLoop.detect _ _ _ ?b0] => set (b1 := b0)
    end.
    destruct (detect_keeps b1) as (K1 & _).
    split; [rewrite K1; exact Hh|].
    apply (detect_quiet b1), Hfresh, Hh.
  - unfold GestureLoop.stop.
    destruct (requestRef (service b)) as [[|h]|]; auto.
Qed.

(** X25.  Degraded mode: as long as the landmarker has not been created,
    no result reaches [onResult], whatever else happens: frames, a
    moving video, start and stop. *)
Theorem no_results_without_model (events : list Event) :
  forall (b : Browser Result),
    handLandmarker (service b) = false ->
    Forall (fun e => e <> Initialized) events ->
    results (run events b) = results b.
Proof.
  induction events as [|e events IH]; intros b Hh Hev; [reflexivity|].
  apply Forall_cons in Hev as [He Hev].
  destruct (step_no_landmarker b e Hh He) as [Hh' Hr].
  unfold GestureLoop.run in *. cbn [foldl].
  rewrite (IH _ Hh' Hev). exact Hr.
Qed.

(** *** Start and stop *)

Lemma returning_throws (b : Browser Result) :
  returning -> throws b = false.
Proof.
  intros Hret. unfold GestureLoop.throws.
  destruct (Hret (currentTime b)) as (found & -> & ->).
  apply andb_false_r.
Qed.

Lemma start_fields (b : Browser Result) :
  (start b).2 = Normal tt ->
  callbacks (start b).1 = callbacks b ++ [nextHandle b]
  /\ requestRef (service (start b).1) = Some (nextHandle b)
  /\ nextHandle (start b).1 = S (nextHandle b).
Proof.
  unfold GestureLoop.start.
  match goal with
  | |- context [GestureLoop.detect _ _ _ ?b0] => set (b1 := b0)
  end.
  intros Hn.
  destruct (detect_queue b1) as (Hc & Hr & Hh & _ & Ht).
  destruct (throws b1).
  - destruct (Ht eq_refl) as [e He]. congruence.
  - rewrite Hc, Hr, Hh. auto.
Qed.

Lemma start_thrown (b : Browser Result) (e : JSError) :
  (start b).2 = Throw e ->
  callbacks (start b).1 = callbacks b
  /\ requestRef (service (start b).1) = requestRef (service b)
  /\ nextHandle (start b).1 = nextHandle b.
Proof.
  unfold GestureLoop.start.
  match goal with
  | |- context [GestureLoop.detect _ _ _ ?b0] => set (b1 := b0)
  end.
  intros Hn.
  destruct (detect_queue b1) as (Hc & Hr & Hh & Hv & _).
  destruct (throws b1).
  - rewrite Hc, Hr, Hh. auto.
  - rewrite (Hv eq_refl) in Hn. discriminate.
Qed.

Lemma start_settled (b : Browser Result) : fresh (start b).1 = false.
Proof. unfold GestureLoop.start. apply detect_settled. Qed.

Lemma start_video (b : Browser Result) :
  video (service (start b).1) = true.
Proof.
  unfold GestureLoop.start.
  match goal with
  | |- context [GestureLoop.detect _ _ _ ?b0] => set (b1 := b0)
  end.
  destruct (detect_keeps b1) as (_ & -> & _). reflexivity.
Qed.

Lemma start_returns (b : Browser Result) :
  returning -> (start b).2 = Normal tt.
Proof.
  intros Hret. unfold GestureLoop.start.
  match goal with
  | |- context [GestureLoop.detect _ _ _ ?b0] => set (b1 := b0)
  end.
  destruct (detect_queue b1) as (_ & _ & _ & Hv & _).
  apply Hv, returning_throws, Hret.
Qed.

Lemma stop_fields (b : Browser Result) (h : nat) :
  requestRef (service b) = Some (S h) ->
  callbacks (stop b) = filter (fun h' => h' <> S h) (callbacks b)
  /\ nextHandle (stop b) = nextHandle b.
Proof.
  intros Hr. unfold GestureLoop.stop. rewrite Hr. cbn. auto.
Qed.

Lemma stop_keeps (b : Browser Result) :
  results (stop b) = results b /\ fresh (stop b) = fresh b.
Proof.
  unfold GestureLoop.stop.
  destruct (requestRef (service b)) as [[|h]|]; auto.
Qed.

Lemma stop_nothing (b : Browser Result) :
  callbacks b = [] -> callbacks (stop b) = [].
Proof.
  intros Hc. unfold GestureLoop.stop.
  destruct (requestRef (service b)) as [[|h]|]; try exact Hc.
  cbn. rewrite Hc. reflexivity.
Qed.

(** One frame of one loop: the callback queues its successor, unless it
    throws, and then nothing is queued. *)
Lemma animationFrame_single (b : Browser Result) (h : nat) :
  callbacks b = [h] ->
  callbacks (animationFrame b)
  = (if throws b then [] else [nextHandle b])
  /\ requestRef (service (animationFrame b))
     = (if throws b then requestRef (service b) else Some (nextHandle b))
  /\ nextHandle (animationFrame b)
     = (if throws b then nextHandle b else S (nextHandle b)).
Proof.
  intros Hc. unfold GestureLoop.animationFrame. rewrite Hc.
  cbn [foldl].
  match goal with
  | |- context [GestureLoop.detect _ _ _ ?b0] => set (b1 := b0)
  end.
  destruct (detect_queue b1) as (Hq & Hr & Hh & _).
  change (throws b1) with (throws b) in Hq, Hr, Hh.
  rewrite Hq, Hr, Hh. auto.
Qed.

(** A loop that is running, or has ended. *)
Lemma start_alive b :
  callbacks b = [] -> (0 < nextHandle b)%nat ->
  (looping (start b).1 \/ callbacks (start b).1 = [])
  /\ (returning -> looping (start b).1).
Proof.
  intros Hc Hn.
  assert (Hcase : forall c, (start b).2 = c ->
            match c with
            | Normal _ => looping (start b).1
            | Throw _ => callbacks (start b).1 = []
            end).
  { intros [[]|e] Hs.
    - destruct (start_fields b Hs) as (H1 & H2 & H3).
      exists (nextHandle b). rewrite H1, H2, H3, Hc.
      split; [reflexivity|]. split; [reflexivity | lia].
    - destruct (start_thrown b e Hs) as (H1 & _). congruence. }
  split.
  - specialize (Hcase _ eq_refl).
    destruct (start b).2; [left | right]; exact Hcase.
  - intros Hret. exact (Hcase _ (start_returns b Hret)).
Qed.

Lemma passive_alive b e :
  passive e ->
  (looping b \/ callbacks b = [] ->
   looping (step b e) \/ callbacks (step b e) = [])
  /\ (returning -> looping b -> looping (step b e)).
Proof.
  intros He.
  assert (Hframe : looping b ->
            if throws b then callbacks (animationFrame b) = []
            else looping (animationFrame b)).
  { intros (h & Hc & Hr & Hh).
    destruct (animationFrame_single b h Hc) as (H1 & H2 & H3).
    destruct (throws b); [exact H1|].
    exists (nextHandle b). rewrite H1, H2, H3.
    split; [reflexivity|]. split; [reflexivity | lia]. }
  destruct e; try contradiction; cbn [GestureLoop.step].
  - split.
    + intros [Hl | Hc].
      * specialize (Hframe Hl).
        destruct (throws b); [right | left]; exact Hframe.
      * right. destruct (animationFrame_results b) as (_ & _ & Hid & _).
        rewrite (Hid Hc). exact Hc.
    + intros Hret Hl. specialize (Hframe Hl).
      rewrite (returning_throws b Hret) in Hframe. exact Hframe.
  - split.
    + intros [(h & Hc & Hr & Hh) | Hc]; [left; exists h | right];
        cbn; auto.
    + intros _ (h & Hc & Hr & Hh). exists h. cbn. auto.
Qed.

Lemma passive_stopped b e :
  passive e -> callbacks b = [] ->
  callbacks (step b e) = [] /\ results (step b e) = results b.
Proof.
  intros He Hc. destruct e; try contradiction.
  - cbn [GestureLoop.step].
    destruct (animationFrame_results b) as (_ & _ & Hid & _).
    rewrite (Hid Hc). auto.
  - cbn. auto.
Qed.



End LoopFacts.

(** ** Instances of the further properties *)

Section MoreInstances.
Import Types Constants TreeScene Examples.

Abbreviation flatFrames :=
  (frames unit flatInvert flatApply flatLookAt).
Abbreviation flatFrame :=
  (useFrame unit flatInvert flatApply flatLookAt).

Lemma restingScene_smooth : smoothRotation restingScene = 0.
Proof.
  unfold restingScene, setGroupRef. cbn [smoothRotation].
  rewrite mount_exact. reflexivity.
Qed.

Lemma restingScene_group :
  groupRef restingScene
  = Some {| rotationY := 0; matrixWorld := tt;
            children := [restingChild] |}.
Proof. reflexivity. Qed.

Lemma tiltedTick_range :
  Forall (fun k => -1 <= tickRotation k <= 1) [tiltedTick].
Proof.
  apply Forall_cons. split; [cbn; lra | apply Forall_nil_2].
Qed.

Lemma smoothRotation_bounded_witness :
  -1 <= smoothRotation (flatFrames (1 / 60) [tiltedTick] restingScene)
  <= 1.
Proof.
  apply smoothRotation_bounded.
  - rewrite restingScene_smooth. lra.
  - exact tiltedTick_range.
Defined.

Lemma smoothRotation_converges_witness :
  smoothRotation (flatFrames (1 / 60) [tiltedTick] restingScene) - 1
  = 0.9 ^ 1 * (smoothRotation restingScene - 1).
Proof.
  apply (smoothRotation_converges unit flatInvert flatApply flatLookAt
           (1 / 60) 1 [tiltedTick] restingScene).
  - rewrite restingScene_group. eauto.
  - apply Forall_cons. split; [reflexivity | apply Forall_nil_2].
Defined.

Lemma yaw_step_witness :
  exists group',
    groupRef (flatFrame 1 frontCamera 0 (1 / 60) restingScene)
    = Some group'
    /\ -1.3 * (1 / 60) <= rotationY group' - 0 <= 1.7 * (1 / 60).
Proof.
  destruct (yaw_step unit flatInvert flatApply flatLookAt 1 frontCamera 0
              (1 / 60) restingScene _ restingScene_group)
    as (g' & Hg & _ & _ & _ & Hb).
  - rewrite restingScene_smooth. lra.
  - lra.
  - lra.
  - exists g'. split; [exact Hg | exact Hb].
Defined.

Lemma sparkle_rotation_witness :
  exists child',
    childAt (flatFrames (1 / 60) [tiltedTick] restingScene) 0
    = Some child'
    /\ Euler.z (rotation3 child') = Euler.z (rotation3 restingChild).
Proof.
  destruct restingScene_fields as (_ & Hc & Hd).
  destruct (sparkle_rotation unit flatInvert flatApply flatLookAt
              (1 / 60) [tiltedTick] restingScene 0 restingChild firstGem
              Hc Hd (type_gemItem drawsHalf ORNAMENT_COUNT 0 0))
    as (child' & Hc' & _ & _ & Hz).
  exists child'. split; [exact Hc' | exact Hz].
Defined.

Lemma photoScene_fields :
  mode photoScene = TREE
  /\ ornaments photoScene !! 0%nat = Some firstPhoto
  /\ childAt photoScene 0 = Some (childOf firstPhoto).
Proof.
  assert (Ho : ornaments photoScene !! 0%nat = Some firstPhoto).
  { unfold photoScene, attach, setGroupRef. cbn [ornaments].
    rewrite mount_exact. cbn [ornaments fst]. unfold ornamentsOf.
    apply (lookup_generate_photo drawsHalf ORNAMENT_COUNT ["blob:a"]
             0 0 "blob:a"). reflexivity. }
  split; [|split; [exact Ho|]].
  - unfold photoScene, attach, setGroupRef. cbn [mode].
    rewrite mount_exact. reflexivity.
  - unfold childAt, photoScene, attach, setGroupRef.
    cbn [groupRef children ornaments].
    rewrite list_lookup_fmap.
    unfold photoScene, attach, setGroupRef in Ho. cbn [ornaments] in Ho.
    rewrite Ho. reflexivity.
Qed.

Lemma photo_keeps_orientation_witness :
  exists child',
    childAt (flatFrames (1 / 60) [tiltedTick] photoScene) 0 = Some child'
    /\ rotation3 child' = rotation3 (childOf firstPhoto).
Proof.
  destruct photoScene_fields as (Hm & Ho & Hc).
  apply (photo_keeps_orientation unit flatInvert flatApply flatLookAt
           (1 / 60) [tiltedTick] photoScene 0 (childOf firstPhoto)
           firstPhoto Hc Ho eq_refl).
  left. rewrite Hm. discriminate.
Defined.

Lemma stored_drift_bounded_witness :
  exists data',
    ornaments (flatFrames (1 / 60) [tiltedTick] restingScene) !! 0%nat
    = Some data'
    /\ positionTree data' = positionTree firstGem.
Proof.
  destruct restingScene_fields as (_ & _ & Hd).
  destruct (useFrame_data_type unit flatInvert flatApply flatLookAt
              (tickRotation tiltedTick) (tickCamera tiltedTick)
              (tickTime tiltedTick) (1 / 60) restingScene 0 firstGem Hd)
    as (data' & Hd' & _).
  exists data'. split; [exact Hd'|].
  destruct (stored_drift_bounded unit flatInvert flatApply flatLookAt
              (1 / 60) [tiltedTick] restingScene 0 data' Hd')
    as (data & Hdata & _ & Hp & _).
  rewrite Hd in Hdata. apply (inj Some) in Hdata. subst data. exact Hp.
Defined.

Lemma focus_designates_photo_witness :
  exists j, focusedIndex pinchUpload = Some j.
Proof.
  destruct (focus_designates_photo drawsHalf drawsHalf_range unit
              flatInvert flatApply flatLookAt pinchUpload
              pinchUpload_reachable) as (j & Hj & _).
  exists j. exact Hj.
Defined.

(** *** The detection loop on a fresh page *)

Abbreviation page := (@GestureLoop.open unit).

Lemma no_results_without_model_witness :
  GestureLoop.results
    (GestureLoop.run unit silent heard
       [GestureLoop.Start; GestureLoop.Frame; GestureLoop.Seek 1;
        GestureLoop.Frame; GestureLoop.Stop] page)
  = [].
Proof.
  apply (no_results_without_model unit silent heard
           [GestureLoop.Start; GestureLoop.Frame; GestureLoop.Seek 1;
            GestureLoop.Frame; GestureLoop.Stop] page eq_refl).
  repeat (apply Forall_cons; split; [discriminate|]).
  apply Forall_nil_2.
Defined.



End MoreInstances.
